(** * partner_agent_dify: a shallow embedding of [partner_agent_dify.py]

    The script pairs Word documents with a checklist spreadsheet, asks a
    remote workflow for structured data about each checklist row and
    writes one annotated spreadsheet per document.

    Python [str] values are sequences of Unicode code points, so they
    are modelled as [list N].  Effects (the HTTP call, the files read
    and written, the log) are modelled by explicit state passing over
    an environment of oracles. *)

From Stdlib Require Import Bool Ascii String NArith ZArith Lia List.
Import ListNotations.

Set Implicit Arguments.
Local Set Warnings "-register-all".

(** ** Python strings as code-point sequences *)

Definition pystr := list N.

Module Utf8.

(** Decoder used only to write the literals of the source in this
    file: it turns the UTF-8 bytes of a Rocq string literal into the
    code points of the Python literal. *)

Definition cont (b : N) : N := N.land b 63.

Fixpoint decode (bs : list N) : pystr :=
  match bs with
  | [] => []
  | b0 :: r0 =>
      if (b0 <? 128)%N then b0 :: decode r0
      else match r0 with
           | [] => [b0]
           | b1 :: r1 =>
               if (b0 <? 224)%N
               then (N.land b0 31 * 64 + cont b1)%N :: decode r1
               else match r1 with
                    | [] => [b0; b1]
                    | b2 :: r2 =>
                        if (b0 <? 240)%N
                        then (N.land b0 15 * 4096 + cont b1 * 64 + cont b2)%N
                               :: decode r2
                        else match r2 with
                             | [] => [b0; b1; b2]
                             | b3 :: r3 =>
                                 (N.land b0 7 * 262144 + cont b1 * 4096
                                  + cont b2 * 64 + cont b3)%N :: decode r3
                             end
                    end
           end
  end.

End Utf8.

(** [u "..."] is the Python string literal ["..."]. *)
Definition u (s : string) : pystr :=
  Utf8.decode (map N_of_ascii (list_ascii_of_string s)).

Definition str_eqb (a b : pystr) : bool :=
  if list_eq_dec N.eq_dec a b then true else false.

(** A character literal of the source as a code point. *)
Definition ch (a : ascii) : N := N_of_ascii a.

Definition LF : N := 10.
Definition DQUOTE : N := 34.
Definition SPACE : N := 32.

(** [sep.join(parts)] *)
Fixpoint join (sep : pystr) (parts : list pystr) : pystr :=
  match parts with
  | [] => []
  | [p] => p
  | p :: rest => p ++ sep ++ join sep rest
  end.

(** [s.startswith(p)], also used for the literal parts of the regular
    expressions. *)
Fixpoint starts_with (p s : pystr) : bool :=
  match p, s with
  | [], _ => true
  | _ :: _, [] => false
  | a :: p', b :: s' => (a =? b)%N && starts_with p' s'
  end.

(** Characters for which [str.isspace()] holds; the same set is what
    [\s] matches in a [str] pattern and what [str.strip()] removes. *)
Definition is_space (c : N) : bool :=
  ((9 <=? c) && (c <=? 13) || (28 <=? c) && (c <=? 32)
   || (c =? 133) || (c =? 160) || (c =? 5760)
   || (8192 <=? c) && (c <=? 8202)
   || (c =? 8232) || (c =? 8233) || (c =? 8239) || (c =? 8287)
   || (c =? 12288))%N.

Fixpoint lstrip (s : pystr) : pystr :=
  match s with
  | c :: t => if is_space c then lstrip t else s
  | [] => []
  end.

Definition rstrip (s : pystr) : pystr := rev (lstrip (rev s)).

(** [s.strip()] *)
Definition strip (s : pystr) : pystr := rstrip (lstrip s).

(** Decimal text of a non-negative number, as [str(int)] prints it. *)
Definition digit_char (d : N) : N := (48 + d)%N.

Fixpoint dec_digits (fuel : nat) (n : N) (acc : pystr) : pystr :=
  match fuel with
  | O => acc
  | S f =>
      let acc' := digit_char (n mod 10) :: acc in
      if (n <? 10)%N then acc' else dec_digits f (n / 10) acc'
  end.

Definition str_of_N (n : N) : pystr := dec_digits (S (N.to_nat (N.log2 n))) n [].

Definition str_of_Z (z : Z) : pystr :=
  match z with
  | Zneg p => 45%N :: str_of_N (Npos p)
  | _ => str_of_N (Z.to_N z)
  end.

(** ** Python values, exceptions and results *)

(** Values the script handles: spreadsheet cells, decoded JSON and the
    request body.  A float is represented by the text [repr] prints for
    it; [PObj] stands for any other object (a [datetime] cell for
    instance) with its class name, its [str()] and its [repr()]. *)
Inductive pyval : Type :=
| PNone
| PBool (b : bool)
| PInt (z : Z)
| PFloat (r : pystr)
| PStr (s : pystr)
| PList (l : list pyval)
| PDict (d : list (pystr * pyval))
| PObj (cls text rep : pystr).

(** An exception: its class and the text [str(e)] gives. *)
Record exn : Type := mkExn { exn_class : string; exn_str : pystr }.

Inductive result (A : Type) : Type :=
| Ok (a : A)
| Raise (e : exn).
Arguments Ok {A} a.
Arguments Raise {A} e.

Definition bind {A B} (r : result A) (k : A -> result B) : result B :=
  match r with
  | Ok a => k a
  | Raise e => Raise e
  end.

Declare Scope py_scope.
Delimit Scope py_scope with py.
Notation "x <- r ;; k" := (bind r (fun x => k))
  (at level 61, r at next level, right associativity) : py_scope.
Notation "' pat <- r ;; k" := (bind r (fun x => let pat := x in k))
  (at level 61, pat pattern, r at next level, right associativity) : py_scope.
Open Scope py_scope.

(** What the interpreter does and this development does not spell out:
    [repr] of a [str] (it depends on the Unicode database) and the
    conversion of a decimal literal to a float, given as the text that
    [repr] prints for the float. *)
Record Builtins : Type := mkBuiltins {
  repr_of_str : pystr -> pystr;
  repr_of_float_literal : pystr -> pystr
}.

(** [type(v).__name__] *)
Definition type_name (v : pyval) : pystr :=
  match v with
  | PNone => u "NoneType"
  | PBool _ => u "bool"
  | PInt _ => u "int"
  | PFloat _ => u "float"
  | PStr _ => u "str"
  | PList _ => u "list"
  | PDict _ => u "dict"
  | PObj cls _ _ => cls
  end.

Section Str.
Variable py : Builtins.

(** [repr(v)] *)
Fixpoint py_repr (v : pyval) : pystr :=
  match v with
  | PNone => u "None"
  | PBool true => u "True"
  | PBool false => u "False"
  | PInt z => str_of_Z z
  | PFloat r => r
  | PStr s => repr_of_str py s
  | PList l => u "[" ++ join (u ", ") (map py_repr l) ++ u "]"
  | PDict d =>
      u "{" ++ join (u ", ")
                 (map (fun kv => repr_of_str py (fst kv) ++ u ": "
                                   ++ py_repr (snd kv)) d)
        ++ u "}"
  | PObj _ _ rep => rep
  end.

(** [str(v)]: the string itself for a [str], [repr] otherwise. *)
Definition py_str (v : pyval) : pystr :=
  match v with
  | PStr s => s
  | PObj _ text _ => text
  | _ => py_repr v
  end.

(** The source's [convert_list_to_str]. *)
Definition convert_list_to_str (data : pyval) : pystr :=
  match data with
  | PList items => join [LF] (map py_str items)
  | PNone => py_str (PStr (u "未提取"))
  | _ => py_str data
  end.

End Str.

(** ** Dictionaries: insertion-ordered, one entry per key *)

Fixpoint dict_lookup (d : list (pystr * pyval)) (k : pystr) : option pyval :=
  match d with
  | [] => None
  | (k', v) :: rest => if str_eqb k' k then Some v else dict_lookup rest k
  end.

(** [d[k] = v] *)
Fixpoint dict_set (d : list (pystr * pyval)) (k : pystr) (v : pyval)
  : list (pystr * pyval) :=
  match d with
  | [] => [(k, v)]
  | (k', v') :: rest =>
      if str_eqb k' k then (k', v) :: rest else (k', v') :: dict_set rest k v
  end.

(** [obj.get(key, default)]; only a dict has the method. *)
Definition py_get (obj : pyval) (key : pystr) (default : pyval) : result pyval :=
  match obj with
  | PDict d =>
      Ok (match dict_lookup d key with Some v => v | None => default end)
  | _ =>
      Raise (mkExn "AttributeError"
               (u "'" ++ type_name obj ++ u "' object has no attribute 'get'"))
  end.

(** [obj[key]] with a [str] key, as in [response_data['data']]. *)
Definition py_getitem (obj : pyval) (key : pystr) : result pyval :=
  match obj with
  | PDict d =>
      match dict_lookup d key with
      | Some v => Ok v
      | None => Raise (mkExn "KeyError" (u "'" ++ key ++ u "'"))
      end
  | PList _ =>
      Raise (mkExn "TypeError"
               (u "list indices must be integers or slices, not str"))
  | PStr _ =>
      Raise (mkExn "TypeError" (u "string indices must be integers, not 'str'"))
  | _ =>
      Raise (mkExn "TypeError"
               (u "'" ++ type_name obj ++ u "' object is not subscriptable"))
  end.

(** ** [json.loads]

    The decoder follows CPython's [json] package with its C scanner
    ([Modules/_json.c]): the same grammar, the same order of tests and
    the same messages.  Positions are counted so that the text of a
    [JSONDecodeError] can be built.  The recursion goes by fuel, of
    which [loads] gives enough for any text (see [loads_fuel]); the
    interpreter's own limits on nesting depth and on the number of
    digits of an integer literal are not modelled. *)

Module Json.

Inductive pres (A : Type) : Type :=
| PVal (v : A) (rest : pystr) (pos : N)
| PFail (msg : pystr) (pos : N)
| PFuel.
Arguments PVal {A} v rest pos.
Arguments PFail {A} msg pos.
Arguments PFuel {A}.

Definition is_ws (c : N) : bool :=
  ((c =? ch " ") || (c =? 9) || (c =? 10) || (c =? 13))%N.

Definition is_digit (c : N) : bool := ((48 <=? c) && (c <=? 57))%N.

Fixpoint skip_ws (s : pystr) (pos : N) : pystr * N :=
  match s with
  | c :: t => if is_ws c then skip_ws t (pos + 1)%N else (s, pos)
  | [] => (s, pos)
  end.

(** Longest prefix of ASCII digits. *)
Fixpoint span_digits (s : pystr) : pystr * pystr :=
  match s with
  | c :: t =>
      if is_digit c
      then let (ds, r) := span_digits t in (c :: ds, r)
      else ([], s)
  | [] => ([], [])
  end.

Definition hexval (c : N) : option N :=
  if is_digit c then Some (c - 48)%N
  else if ((97 <=? c) && (c <=? 102))%N then Some (c - 87)%N
  else if ((65 <=? c) && (c <=? 70))%N then Some (c - 55)%N
  else None.

(** Four hexadecimal digits at the head of [s]. *)
Definition hex4 (s : pystr) : option (N * pystr) :=
  match s with
  | a :: b :: c :: d :: t =>
      match hexval a, hexval b, hexval c, hexval d with
      | Some x, Some y, Some z, Some w =>
          Some ((x * 4096 + y * 256 + z * 16 + w)%N, t)
      | _, _, _, _ => None
      end
  | _ => None
  end.

Definition is_high_surrogate (c : N) : bool := ((55296 <=? c) && (c <=? 56319))%N.
Definition is_low_surrogate (c : N) : bool := ((56320 <=? c) && (c <=? 57343))%N.
Definition join_surrogates (hi lo : N) : N :=
  (65536 + (hi - 55296) * 1024 + (lo - 56320))%N.

(** The character a one-letter escape stands for. *)
Definition simple_escape (c : N) : option N :=
  if (c =? DQUOTE)%N then Some c
  else if (c =? 92)%N then Some c
  else if (c =? ch "/")%N then Some c
  else if (c =? ch "b")%N then Some 8%N
  else if (c =? ch "f")%N then Some 12%N
  else if (c =? ch "n")%N then Some 10%N
  else if (c =? ch "r")%N then Some 13%N
  else if (c =? ch "t")%N then Some 9%N
  else None.

(** [scanstring] in strict mode; [s] starts after the opening quote,
    which stands at [begin]; [acc] holds the decoded characters in
    reverse. *)
Fixpoint scanstring (fuel : nat) (s : pystr) (pos begin : N) (acc : pystr)
  : pres pystr :=
  match fuel with
  | O => PFuel
  | S f =>
      match s with
      | [] => PFail (u "Unterminated string starting at") begin
      | c :: t =>
          if (c =? DQUOTE)%N then PVal (rev acc) t (pos + 1)%N
          else if (c =? 92)%N then
            match t with
            | [] => PFail (u "Unterminated string starting at") begin
            | e :: t' =>
                if (e =? ch "u")%N then
                  match hex4 t' with
                  | None => PFail (u "Invalid \uXXXX escape") (pos + 1)%N
                  | Some (c1, t1) =>
                      let lone := scanstring f t1 (pos + 6)%N begin (c1 :: acc) in
                      if is_high_surrogate c1 && (6 <? N.of_nat (length t1))%N
                         && starts_with (u "\u") t1
                      then match hex4 (skipn 2 t1) with
                           | None =>
                               PFail (u "Invalid \uXXXX escape") (pos + 7)%N
                           | Some (c2, t3) =>
                               if is_low_surrogate c2
                               then scanstring f t3 (pos + 12)%N begin
                                      (join_surrogates c1 c2 :: acc)
                               else lone
                           end
                      else lone
                  end
                else
                  match simple_escape e with
                  | Some c' => scanstring f t' (pos + 2)%N begin (c' :: acc)
                  | None => PFail (u "Invalid \escape") pos
                  end
            end
          else if (c <=? 31)%N then PFail (u "Invalid control character at") pos
          else scanstring f t (pos + 1)%N begin (c :: acc)
      end
  end.

(** Value of a run of decimal digits. *)
Definition Z_of_digits (ds : pystr) : Z :=
  fold_left (fun a d => (a * 10 + Z.of_N (d - 48))%Z) ds 0%Z.

Section Number.
Variable py : Builtins.

(** [_match_number_unicode]: an optional minus sign, then 0 or a
    digit 1-9 followed by digits, then optionally a point with one
    or more digits, then optionally e or E, an optional sign and
    one or more digits. *)
Definition match_number (s : pystr) (pos : N) : pres pyval :=
  let '(sign, s1) :=
    match s with
    | c :: t => if (c =? ch "-")%N then ([c], t) else ([], s)
    | [] => ([], s)
    end in
  match s1 with
  | [] => PFail (u "Expecting value") pos
  | d :: t1 =>
      let int_part :=
        if ((49 <=? d) && (d <=? 57))%N
        then let (ds, r) := span_digits t1 in Some (d :: ds, r)
        else if (d =? 48)%N then Some ([d], t1)
        else None in
      match int_part with
      | None => PFail (u "Expecting value") pos
      | Some (ints, r1) =>
          let '(frac, r2) :=
            match r1 with
            | p :: d1 :: t2 =>
                if (p =? ch ".")%N && is_digit d1
                then let (ds, r) := span_digits t2 in (p :: d1 :: ds, r)
                else ([], r1)
            | _ => ([], r1)
            end in
          let '(expo, r3) :=
            match r2 with
            | e :: t3 =>
                if ((e =? ch "e") || (e =? ch "E"))%N then
                  let '(sg, t4) :=
                    match t3 with
                    | g :: t' =>
                        if ((g =? ch "-") || (g =? ch "+"))%N
                        then ([g], t') else ([], t3)
                    | [] => ([], t3)
                    end in
                  match span_digits t4 with
                  | ([], _) => ([], r2)
                  | (ds, r) => (e :: sg ++ ds, r)
                  end
                else ([], r2)
            | [] => ([], r2)
            end in
          let text := sign ++ ints ++ frac ++ expo in
          let v :=
            match frac, expo with
            | [], [] =>
                PInt (match sign with
                      | [] => Z_of_digits ints
                      | _ => - Z_of_digits ints
                      end)
            | _, _ => PFloat (repr_of_float_literal py text)
            end in
          PVal v r3 (pos + N.of_nat (length text))%N
      end
  end.

(** The character at the head of [s] is [c]. *)
Definition at_head (c : N) (s : pystr) : bool := starts_with [c] s.

(** [scan_once], [_parse_object_unicode] and [_parse_array_unicode].
    [parse_members] and [parse_elements] are the two loops, entered
    where a key, respectively a value, is expected. *)
Fixpoint scan_once (fuel : nat) (s : pystr) (pos : N) : pres pyval :=
  match fuel with
  | O => PFuel
  | S f =>
      match s with
      | [] => PFail (u "Expecting value") pos
      | c :: t =>
          if (c =? DQUOTE)%N then
            match scanstring (S (length t)) t (pos + 1)%N pos [] with
            | PVal str r p => PVal (PStr str) r p
            | PFail m p => PFail m p
            | PFuel => PFuel
            end
          else if (c =? ch "{")%N then
            let (t', p') := skip_ws t (pos + 1)%N in
            if at_head (ch "}") t' then PVal (PDict []) (tl t') (p' + 1)%N
            else parse_members f t' p' []
          else if (c =? ch "[")%N then
            let (t', p') := skip_ws t (pos + 1)%N in
            if at_head (ch "]") t' then PVal (PList []) (tl t') (p' + 1)%N
            else parse_elements f t' p' []
          else if (c =? ch "n")%N && starts_with (u "ull") t
          then PVal PNone (skipn 3 t) (pos + 4)%N
          else if (c =? ch "t")%N && starts_with (u "rue") t
          then PVal (PBool true) (skipn 3 t) (pos + 4)%N
          else if (c =? ch "f")%N && starts_with (u "alse") t
          then PVal (PBool false) (skipn 4 t) (pos + 5)%N
          else if (c =? ch "N")%N && starts_with (u "aN") t
          then PVal (PFloat (u "nan")) (skipn 2 t) (pos + 3)%N
          else if (c =? ch "I")%N && starts_with (u "nfinity") t
          then PVal (PFloat (u "inf")) (skipn 7 t) (pos + 8)%N
          else if (c =? ch "-")%N && starts_with (u "Infinity") t
          then PVal (PFloat (u "-inf")) (skipn 8 t) (pos + 9)%N
          else match_number s pos
      end
  end

with parse_members (fuel : nat) (s : pystr) (pos : N)
       (acc : list (pystr * pyval)) : pres pyval :=
  match fuel with
  | O => PFuel
  | S f =>
      if at_head DQUOTE s then
        match scanstring (S (length (tl s))) (tl s) (pos + 1)%N pos [] with
        | PFuel => PFuel
        | PFail m p => PFail m p
        | PVal key r1 p1 =>
            let (r2, p2) := skip_ws r1 p1 in
            if at_head (ch ":") r2 then
              let (r4, p4) := skip_ws (tl r2) (p2 + 1)%N in
              match scan_once f r4 p4 with
              | PFuel => PFuel
              | PFail m p => PFail m p
              | PVal v r5 p5 =>
                  let acc' := dict_set acc key v in
                  let (r6, p6) := skip_ws r5 p5 in
                  if at_head (ch "}") r6
                  then PVal (PDict acc') (tl r6) (p6 + 1)%N
                  else if at_head (ch ",") r6 then
                    let (r8, p8) := skip_ws (tl r6) (p6 + 1)%N in
                    parse_members f r8 p8 acc'
                  else PFail (u "Expecting ',' delimiter") p6
              end
            else PFail (u "Expecting ':' delimiter") p2
        end
      else PFail (u "Expecting property name enclosed in double quotes") pos
  end

with parse_elements (fuel : nat) (s : pystr) (pos : N) (acc : list pyval)
  : pres pyval :=
  match fuel with
  | O => PFuel
  | S f =>
      match scan_once f s pos with
      | PFuel => PFuel
      | PFail m p => PFail m p
      | PVal v r1 p1 =>
          let acc' := acc ++ [v] in
          let (r2, p2) := skip_ws r1 p1 in
          if at_head (ch "]") r2
          then PVal (PList acc') (tl r2) (p2 + 1)%N
          else if at_head (ch ",") r2 then
            let (r4, p4) := skip_ws (tl r2) (p2 + 1)%N in
            parse_elements f r4 p4 acc'
          else PFail (u "Expecting ',' delimiter") p2
      end
  end.

End Number.

(** Text of [JSONDecodeError(msg, doc, pos)]. *)
Fixpoint line_col (doc : pystr) (n : nat) (line col : N) : N * N :=
  match n, doc with
  | S k, c :: t =>
      if (c =? LF)%N then line_col t k (line + 1)%N 1%N
      else line_col t k line (col + 1)%N
  | _, _ => (line, col)
  end.

Definition errmsg (msg doc : pystr) (pos : N) : pystr :=
  let (line, col) := line_col doc (N.to_nat pos) 1%N 1%N in
  msg ++ u ": line " ++ str_of_N line ++ u " column " ++ str_of_N col
      ++ u " (char " ++ str_of_N pos ++ u ")".

(** [json.loads(s)] for a [str] argument. *)
Definition loads (py : Builtins) (s : pystr) : result pyval :=
  if starts_with [65279%N] s then
    Raise (mkExn "JSONDecodeError"
             (errmsg (u "Unexpected UTF-8 BOM (decode using utf-8-sig)") s 0))
  else
    let (s0, p0) := skip_ws s 0%N in
    match scan_once py (2 * length s + 2) s0 p0 with
    | PFuel =>
        Raise (mkExn "RecursionError" (u "maximum recursion depth exceeded"))
    | PFail m p => Raise (mkExn "JSONDecodeError" (errmsg m s p))
    | PVal v r1 p1 =>
        let (r2, p2) := skip_ws r1 p1 in
        match r2 with
        | [] => Ok v
        | _ => Raise (mkExn "JSONDecodeError" (errmsg (u "Extra data") s p2))
        end
    end.

End Json.

(** ** Regular expressions of the source

    Each pattern of the script is a run of one character class or two
    literal fences around a lazy group, so each is written out as the
    scan it performs. *)

Module Re.

Definition flush (min : nat) (repl pending : pystr) : pystr :=
  if (min <=? length pending)%nat then repl else pending.

(** [re.sub] for a pattern [cls{min,}] with [min >= 1]: every maximal
    run of [cls] characters of length at least [min] becomes [repl];
    shorter runs stay.  [pending] is the run being read. *)
Fixpoint sub_runs (cls : N -> bool) (min : nat) (repl pending s : pystr)
  : pystr :=
  match s with
  | [] => flush min repl pending
  | c :: t =>
      if cls c then sub_runs cls min repl (pending ++ [c]) t
      else flush min repl pending ++ c :: sub_runs cls min repl [] t
  end.

Definition sub (cls : N -> bool) (min : nat) (repl s : pystr) : pystr :=
  sub_runs cls min repl [] s.

(** First occurrence of [needle]: the text before it and after it. *)
Fixpoint find (needle s : pystr) : option (pystr * pystr) :=
  if starts_with needle s then Some ([], skipn (length needle) s)
  else match s with
       | [] => None
       | c :: t =>
           match find needle t with
           | Some (before, after) => Some (c :: before, after)
           | None => None
           end
       end.

(** [re.search(r'```json(.*?)```', answer, re.DOTALL)]: the group of
    the leftmost match, [None] when there is no match. *)
Definition search_json_block (answer : pystr) : option pystr :=
  match find (u "```json") answer with
  | None => None
  | Some (_, after) =>
      match find (u "```") after with
      | None => None
      | Some (group1, _) => Some group1
      end
  end.

End Re.

(** ** [read_word_file]: cleaning of the paragraphs *)

(** The class [[\x00-\x1F\u3000\s]]. *)
Definition is_blank (c : N) : bool :=
  ((c <=? 31) || (c =? 12288))%N || is_space c.

Definition is_period (c : N) : bool := (c =? ch ".")%N.
Definition is_newline (c : N) : bool := (c =? LF)%N.

(** [re.sub(r'[\x00-\x1F\u3000\s]+', ' ', para.text).strip()] *)
Definition clean_paragraph (text : pystr) : pystr :=
  strip (Re.sub is_blank 1 [SPACE] text).

(** The loop over [doc.paragraphs]: empty results are skipped. *)
Fixpoint cleaned_paragraphs (paragraphs : list pystr) : list pystr :=
  match paragraphs with
  | [] => []
  | para :: rest =>
      let cleaned := clean_paragraph para in
      match cleaned with
      | [] => cleaned_paragraphs rest
      | _ => cleaned :: cleaned_paragraphs rest
      end
  end.

(** The text [read_word_file] returns for the paragraphs of a document. *)
Definition normalize_text (paragraphs : list pystr) : pystr :=
  let text := cleaned_paragraphs paragraphs in
  let full_text := join [LF] text in
  let full_text := Re.sub is_period 4 [SPACE] full_text in
  let full_text := Re.sub is_newline 3 [LF; LF] full_text in
  full_text.

(** ** [json.dumps(obj, ensure_ascii=False, indent=4)] *)

Module Dumps.

Definition hex_digit (d : N) : N := if (d <? 10)%N then (48 + d)%N else (87 + d)%N.

(** [ESCAPE_DCT] of [json.encoder]. *)
Definition escape_char (c : N) : pystr :=
  if (c =? 92)%N then [92; 92]%N
  else if (c =? DQUOTE)%N then [92; DQUOTE]%N
  else if (c =? 8)%N then u "\b"
  else if (c =? 12)%N then u "\f"
  else if (c =? 10)%N then u "\n"
  else if (c =? 13)%N then u "\r"
  else if (c =? 9)%N then u "\t"
  else if (c <? 32)%N then u "\u00" ++ [hex_digit (c / 16); hex_digit (c mod 16)]
  else [c].

(** [encode_basestring] *)
Definition encode_basestring (s : pystr) : pystr :=
  DQUOTE :: flat_map escape_char s ++ [DQUOTE].

Definition floatstr (r : pystr) : pystr :=
  if str_eqb r (u "nan") then u "NaN"
  else if str_eqb r (u "inf") then u "Infinity"
  else if str_eqb r (u "-inf") then u "-Infinity"
  else r.

(** A line break followed by the indentation of [level]. *)
Definition newline_indent (level : nat) : pystr :=
  LF :: repeat SPACE (4 * level).

(** The chunks of the members, up to the first one that raises. *)
Definition map_result {A B} (f : A -> result B) : list A -> result (list B) :=
  fix go (l : list A) : result (list B) :=
    match l with
    | [] => Ok []
    | x :: r =>
        c <- f x ;;
        cs <- go r ;;
        Ok (c :: cs)
    end.

Fixpoint encode (level : nat) (o : pyval) : result pystr :=
  match o with
  | PStr s => Ok (encode_basestring s)
  | PNone => Ok (u "null")
  | PBool true => Ok (u "true")
  | PBool false => Ok (u "false")
  | PInt z => Ok (str_of_Z z)
  | PFloat r => Ok (floatstr r)
  | PList [] => Ok (u "[]")
  | PList items =>
      chunks <- map_result (encode (S level)) items ;;
      Ok (u "[" ++ newline_indent (S level)
            ++ join (u "," ++ newline_indent (S level)) chunks
            ++ newline_indent level ++ u "]")
  | PDict [] => Ok (u "{}")
  | PDict d =>
      chunks <- map_result
                  (fun kv =>
                     c <- encode (S level) (snd kv) ;;
                     Ok (encode_basestring (fst kv) ++ u ": " ++ c)) d ;;
      Ok (u "{" ++ newline_indent (S level)
            ++ join (u "," ++ newline_indent (S level)) chunks
            ++ newline_indent level ++ u "}")
  | PObj cls _ _ =>
      Raise (mkExn "TypeError"
               (u "Object of type " ++ cls ++ u " is not JSON serializable"))
  end.

Definition dumps (o : pyval) : result pystr := encode 0 o.

End Dumps.

(** ** The world outside the script *)

(** [requests.post(url, json=..., headers=..., timeout=...)] *)
Record Request : Type := mkRequest {
  req_url : pyval;
  req_json : pyval;
  req_headers : pyval;
  req_timeout : Z
}.

Record Response : Type := mkResponse {
  status_code : Z;
  reason : pystr;
  url : pystr;
  text : pystr
}.

(** What [load_config] returns: the two keys it reads itself are
    present; the two others are looked up later and may be missing. *)
Record Config : Type := mkConfig {
  word_paths : list pystr;
  excel_path : pystr;
  api_url : option pyval;
  auth_token : option pyval
}.

Definition row := list pyval.
Definition sheet := list row.

(** The collaborators of the script.  [http_post n req] is the outcome
    of the call issued after [n] earlier calls; an exception it raises
    (connection failure, timeout, ...) comes with its text.
    [load_rows] stands for [openpyxl.load_workbook(path)], [wb.active]
    and [list(ws.iter_rows(values_only=True))]; [docx_paragraphs] for
    [Document(path)] and the [text] of its paragraphs; [result_path]
    for the [pathlib] expression that names the result file. *)
Record Env : Type := mkEnv {
  read_config : result Config;
  load_rows : pystr -> result sheet;
  docx_paragraphs : pystr -> result (list pystr);
  http_post : nat -> Request -> result Response;
  result_path : pystr -> result pystr;
  save_workbook : pystr -> sheet -> result unit
}.

Inductive level : Type := INFO | ERROR.

(** What a run leaves behind: the requests sent, the log records and
    the files saved, each in order of time. *)
Record State : Type := mkState {
  calls : list Request;
  log : list (level * pystr);
  files : list (pystr * sheet)
}.

Definition initial : State := mkState [] [] [].

(** ** Computations: state passing with exceptions *)

Definition M (A : Type) : Type := State -> result A * State.

Definition ret {A} (a : A) : M A := fun st => (Ok a, st).

Definition raise {A} (e : exn) : M A := fun st => (Raise e, st).

Definition mbind {A B} (m : M A) (k : A -> M B) : M B :=
  fun st =>
    match m st with
    | (Ok a, st') => k a st'
    | (Raise e, st') => (Raise e, st')
    end.

(** A pure step that may raise. *)
Definition lift {A} (r : result A) : M A := fun st => (r, st).

(** [try: body except Exception as e: handler] *)
Definition try_except {A} (body : M A) (handler : exn -> M A) : M A :=
  fun st =>
    match body st with
    | (Ok a, st') => (Ok a, st')
    | (Raise e, st') => handler e st'
    end.

Declare Scope m_scope.
Delimit Scope m_scope with m.
Notation "x <~ m ;; k" := (mbind m (fun x => k))
  (at level 61, m at next level, right associativity) : m_scope.
Notation "m ;;; k" := (mbind m (fun _ => k))
  (at level 61, right associativity) : m_scope.
Open Scope m_scope.

Definition logger (lv : level) (msg : pystr) : M unit :=
  fun st => (Ok tt, mkState (calls st) (log st ++ [(lv, msg)]) (files st)).

(** [seq[i]] on a tuple. *)
Definition tuple_getitem (t : row) (i : nat) : result pyval :=
  match nth_error t i with
  | Some v => Ok v
  | None => Raise (mkExn "IndexError" (u "tuple index out of range"))
  end.

(** [lst[i] = v] *)
Definition list_setitem (l : row) (i : nat) (v : pyval) : result row :=
  if (i <? length l)%nat
  then Ok (firstn i l ++ v :: skipn (S i) l)
  else Raise (mkExn "IndexError" (u "list assignment index out of range")).

(** [config[key]] for the two keys read while rows are processed. *)
Definition config_getitem (field : option pyval) (key : pystr) : result pyval :=
  match field with
  | Some v => Ok v
  | None => Raise (mkExn "KeyError" (u "'" ++ key ++ u "'"))
  end.

(** ** [process_excel_row] *)

Record RowResult : Type := mkRowResult {
  summary : pystr;         (* key '内容概要' *)
  clause_numbers : pystr;  (* key '条款序号' *)
  clause_text : pystr;     (* key '条款原文' *)
  error : pystr            (* key 'error' *)
}.

Definition FAILED : pystr := u "处理失败".
Definition NOT_EXTRACTED : pystr := u "未提取".

Definition failure_result (e : exn) : RowResult :=
  mkRowResult FAILED FAILED FAILED (exn_str e).

(** [response.raise_for_status()] *)
Definition raise_for_status (r : Response) : result unit :=
  if ((400 <=? status_code r) && (status_code r <? 500))%Z then
    Raise (mkExn "HTTPError"
             (str_of_Z (status_code r) ++ u " Client Error: " ++ reason r
                ++ u " for url: " ++ url r))
  else if ((500 <=? status_code r) && (status_code r <? 600))%Z then
    Raise (mkExn "HTTPError"
             (str_of_Z (status_code r) ++ u " Server Error: " ++ reason r
                ++ u " for url: " ++ url r))
  else Ok tt.

(** [re.search(pattern, answer, re.DOTALL)] where [answer] is whatever
    the response holds. *)
Definition re_search (answer : pyval) : result (option pystr) :=
  match answer with
  | PStr s => Ok (Re.search_json_block s)
  | _ =>
      Raise (mkExn "TypeError"
               (u "expected string or bytes-like object, got '"
                  ++ type_name answer ++ u "'"))
  end.

Section Script.
Variable py : Builtins.
Variable env : Env.

(** [requests.post]: one call, recorded, answered by the environment. *)
Definition requests_post (req : Request) : M Response :=
  fun st =>
    (http_post env (length (calls st)) req,
     mkState (calls st ++ [req]) (log st) (files st)).

(** Lines 70-86: the query and the request body. *)
Definition build_payload (r : row) (file_text : pystr) : result pyval :=
  row0 <- tuple_getitem r 0 ;;
  row1 <- tuple_getitem r 1 ;;
  let query_data :=
    PDict [(u "条款", row0); (u "内容概要填写说明和提示", row1)] in
  query_json <- Dumps.dumps query_data ;;
  Ok (PDict [(u "response_mode", PStr (u "blocking"));
             (u "user", PStr (u "haha-partner"));
             (u "inputs", PDict [(u "Query", PStr query_json);
                                 (u "File", PStr file_text)])]).

(** [convert_list_to_str(result.get(key, ''))] *)
Definition field_text (decoded : pyval) (key : pystr) : result pystr :=
  v <- py_get decoded key (PStr []) ;;
  Ok (convert_list_to_str py v).

(** Lines 104-114: from the answer to the result. *)
Definition extract_answer (answer : pyval) : result RowResult :=
  json_match <- re_search answer ;;
  match json_match with
  | None => Raise (mkExn "ValueError" (u "未找到有效JSON数据"))
  | Some group1 =>
      decoded <- Json.loads py (strip group1) ;;
      s1 <- field_text decoded (u "内容概要") ;;
      s2 <- field_text decoded (u "条款序号") ;;
      s3 <- field_text decoded (u "条款原文") ;;
      Ok (mkRowResult s1 s2 s3 [])
  end.

(** Lines 98-114: from the response to the result. *)
Definition extract (response : Response) : result RowResult :=
  response_data <- Json.loads py (text response) ;;
  data <- py_getitem response_data (u "data") ;;
  outputs <- py_getitem data (u "outputs") ;;
  answer <- py_getitem outputs (u "Answer") ;;
  extract_answer answer.

(** The body of the [try] block. *)
Definition row_attempt (r : row) (file_text : pystr)
  (api_url' auth_token' : pyval) : M RowResult :=
  payload <~ lift (build_payload r file_text) ;;
  let headers := PDict [(u "Authorization", auth_token')] in
  response <~ requests_post (mkRequest api_url' payload headers 600) ;;
  lift (raise_for_status response) ;;;
  lift (extract response).

(** The [except] block: the log line reads [row[0]] again. *)
Definition row_handler (r : row) (e : exn) : M RowResult :=
  row0 <~ lift (tuple_getitem r 0) ;;
  logger ERROR (u "处理行失败: " ++ py_str py row0 ++ u " - " ++ exn_str e) ;;;
  ret (failure_result e).

Definition process_excel_row (r : row) (file_text : pystr)
  (api_url' auth_token' : pyval) : M RowResult :=
  try_except (row_attempt r file_text api_url' auth_token') (row_handler r).

(** ** [read_word_file] *)

Definition read_word_file (file_path : pystr) : M pystr :=
  try_except
    (paragraphs <~ lift (docx_paragraphs env file_path) ;;
     let full_text := normalize_text paragraphs in
     logger INFO (u "成功读取Word文件: " ++ file_path) ;;;
     ret full_text)
    (fun e =>
       logger ERROR (u "读取Word文件失败: " ++ file_path ++ u " - " ++ exn_str e) ;;;
       raise e).

(** ** [process_documents] *)

(** Lines 161-164: the output row built from a result. *)
Definition build_new_row (r : row) (res : RowResult) : result row :=
  let new_row := r ++ [PStr (error res)] in
  new_row <- list_setitem new_row 2 (PStr (summary res)) ;;
  new_row <- list_setitem new_row 3 (PStr (clause_numbers res)) ;;
  new_row <- list_setitem new_row 4 (PStr (clause_text res)) ;;
  Ok new_row.

(** One turn of the loop over the data rows; [new_ws] is the sheet
    filled so far and the sheet after the turn is returned. *)
Definition row_step (config : Config) (file_text : pystr) (new_ws : sheet)
  (idx : nat) (r : row) : M sheet :=
  try_except
    (api_url' <~ lift (config_getitem (api_url config) (u "api_url")) ;;
     auth_token' <~ lift (config_getitem (auth_token config) (u "auth_token")) ;;
     res <~ process_excel_row r file_text api_url' auth_token' ;;
     new_row <~ lift (build_new_row r res) ;;
     ret (new_ws ++ [new_row]))
    (fun e =>
       logger ERROR (u "第" ++ str_of_N (N.of_nat idx) ++ u "行处理异常: "
                       ++ exn_str e) ;;;
       ret (new_ws ++ [r ++ [PStr (exn_str e)]])).

(** [for idx, row in enumerate(rows[1:], start=1)] *)
Fixpoint rows_loop (config : Config) (file_text : pystr) (new_ws : sheet)
  (idx : nat) (data_rows : list row) : M sheet :=
  match data_rows with
  | [] => ret new_ws
  | r :: rest =>
      new_ws' <~ row_step config file_text new_ws idx r ;;
      rows_loop config file_text new_ws' (S idx) rest
  end.

(** [new_wb.save(output_path)] *)
Definition save (output_path : pystr) (ws : sheet) : M unit :=
  fun st =>
    match save_workbook env output_path ws with
    | Ok _ =>
        (Ok tt, mkState (calls st) (log st) (files st ++ [(output_path, ws)]))
    | Raise e => (Raise e, st)
    end.

(** One turn of the loop over [config['word_paths']]. *)
Definition document_step (config : Config) (headers : row) (rows : sheet)
  (word_path : pystr) : M unit :=
  try_except
    (file_text <~ read_word_file word_path ;;
     new_ws <~ rows_loop config file_text [headers] 1 (tl rows) ;;
     output_path <~ lift (result_path env word_path) ;;
     save output_path new_ws ;;;
     logger INFO (u "结果文件已保存: " ++ output_path))
    (fun e =>
       logger ERROR (u "处理文件失败: " ++ word_path ++ u " - " ++ exn_str e)).

Fixpoint documents_loop (config : Config) (headers : row) (rows : sheet)
  (paths : list pystr) : M unit :=
  match paths with
  | [] => ret tt
  | word_path :: rest =>
      document_step config headers rows word_path ;;;
      documents_loop config headers rows rest
  end.

(** [list(rows[0]) + ['error']] *)
Definition make_headers (rows : sheet) : result row :=
  match rows with
  | r0 :: _ => Ok (r0 ++ [PStr (u "error")])
  | [] => Raise (mkExn "IndexError" (u "list index out of range"))
  end.

Definition process_documents (config : Config) : M unit :=
  try_except
    (rows <~ lift (load_rows env (excel_path config)) ;;
     headers <~ lift (make_headers rows) ;;
     documents_loop config headers rows (word_paths config))
    (fun e =>
       logger ERROR (u "主流程异常: " ++ exn_str e) ;;;
       raise e).

(** ** [load_config] and the entry point *)

Definition load_config : M Config :=
  try_except
    (config <~ lift (read_config env) ;;
     logger INFO (u "配置文件加载成功") ;;;
     ret config)
    (fun e =>
       logger ERROR (u "配置文件加载失败: " ++ exn_str e) ;;;
       raise e).

Definition main : M unit :=
  try_except
    (config <~ load_config ;;
     process_documents config)
    (fun e => logger ERROR (u "程序异常终止: " ++ exn_str e)).

End Script.

(** ** Sample environments

    Concrete collaborators on which the script is evaluated below. *)

(** A stand-in for the interpreter's [repr] of strings and floats, used
    where an example has to be evaluated; no example below depends on
    what it returns. *)
Definition plain_builtins : Builtins :=
  mkBuiltins (fun s => u "'" ++ s ++ u "'") (fun literal => literal).

(** Nothing can be read and every request fails to connect. *)
Definition offline_env : Env :=
  mkEnv (Raise (mkExn "FileNotFoundError" (u "partner_config.yaml")))
        (fun path => Raise (mkExn "FileNotFoundError" path))
        (fun path => Raise (mkExn "PackageNotFoundError" path))
        (fun _ _ => Raise (mkExn "ConnectionError" (u "connection refused")))
        (fun path => Ok (path ++ u "_result.xlsx"))
        (fun _ _ => Ok tt).

(** The answer of the workflow used in the examples: free text around
    one fenced block. *)
Definition sample_block : pystr :=
  u "{" ++ [DQUOTE] ++ u "内容概要" ++ [DQUOTE] ++ u ": ["
    ++ [DQUOTE] ++ u "a" ++ [DQUOTE] ++ u "," ++ [DQUOTE] ++ u "b" ++ [DQUOTE]
    ++ u "], " ++ [DQUOTE] ++ u "条款序号" ++ [DQUOTE] ++ u ": "
    ++ [DQUOTE] ++ u "1.1" ++ [DQUOTE] ++ u ", "
    ++ [DQUOTE] ++ u "条款原文" ++ [DQUOTE] ++ u ": null}".

Definition sample_answer : pystr :=
  u "Result: ```json" ++ [LF] ++ sample_block ++ [LF] ++ u "``` done".

(** The body of a response that carries [answer] at
    [data.outputs.Answer]. *)
Definition body_with_answer (answer : pystr) : pystr :=
  u "{" ++ [DQUOTE] ++ u "data" ++ [DQUOTE] ++ u ": {"
    ++ [DQUOTE] ++ u "outputs" ++ [DQUOTE] ++ u ": {"
    ++ [DQUOTE] ++ u "Answer" ++ [DQUOTE] ++ u ": "
    ++ Dumps.encode_basestring answer ++ u "}}}".

(** Every request is answered with [status] and the sample answer. *)
Definition answering_env (status : Z) : Env :=
  mkEnv (Raise (mkExn "FileNotFoundError" (u "partner_config.yaml")))
        (fun path => Raise (mkExn "FileNotFoundError" path))
        (fun path => Raise (mkExn "PackageNotFoundError" path))
        (fun _ req =>
           Ok (mkResponse status [] (py_str plain_builtins (req_url req))
                 (body_with_answer sample_answer)))
        (fun path => Ok (path ++ u "_result.xlsx"))
        (fun _ _ => Ok tt).

Definition sample_row : row :=
  [PStr (u "1.1"); PStr (u "guidance"); PNone; PNone; PNone].

Definition sample_url : pyval := PStr (u "http://dify.example/v1/workflows/run").
Definition sample_token : pyval := PStr (u "Bearer app-token").

(** One document and a checklist of two data rows; the first request is
    answered, the second times out. *)
Definition two_row_env : Env :=
  mkEnv (Ok (mkConfig [u "contract.docx"] (u "checklist.xlsx")
               (Some sample_url) (Some sample_token)))
        (fun _ =>
           Ok [[PStr (u "条款"); PStr (u "内容概要填写说明和提示");
                PStr (u "内容概要"); PStr (u "条款序号"); PStr (u "条款原文")];
               [PStr (u "1"); PStr (u "parties"); PNone; PNone; PNone];
               [PStr (u "2"); PStr (u "term"); PNone; PNone; PNone]])
        (fun _ => Ok [u "  Contract  "; u "   "; u "Clause 1.1 ........ 3"])
        (fun n req =>
           match n with
           | O => Ok (mkResponse 200 (u "OK")
                        (py_str plain_builtins (req_url req))
                        (body_with_answer sample_answer))
           | _ => Raise (mkExn "ReadTimeout" (u "Read timed out."))
           end)
        (fun path => Ok (u "contract_result.xlsx"))
        (fun _ _ => Ok tt).

(** ** What an output row is, given its input row

    Used to state the shape of the table [process_documents] fills. *)

Definition content_cells (res : RowResult) : row :=
  [PStr (summary res); PStr (clause_numbers res); PStr (clause_text res)].

(** The output row for [r]: one cell longer, label and guidance in
    place; and when [r] has five cells or more and the configuration
    names the endpoint and the token, the cells 2, 3 and 4 are those of
    a result of [process_excel_row] on [r] and the last cell is its
    error. *)
Definition row_output (py : Builtins) (env : Env) (config : Config)
  (file_text : pystr) (r o : row) : Prop :=
  length o = S (length r)
  /\ (forall i, i < 2 -> i < length r -> nth_error o i = nth_error r i)
  /\ (5 <= length r ->
      forall a t, api_url config = Some a -> auth_token config = Some t ->
      exists res st1 st2,
        process_excel_row py env r file_text a t st1 = (Ok res, st2)
        /\ o = firstn 2 r ++ content_cells res ++ skipn 5 r
                 ++ [PStr (error res)]).

Definition sample_config : Config :=
  mkConfig [u "contract.docx"] (u "checklist.xlsx")
    (Some sample_url) (Some sample_token).

(** The configuration loads but the checklist cannot be opened. *)
Definition no_checklist_env : Env :=
  mkEnv (Ok sample_config)
        (fun path => Raise (mkExn "FileNotFoundError" path))
        (fun path => Ok [u "Clause 1.1 applies."])
        (fun _ req =>
           Ok (mkResponse 200 (u "OK") (py_str plain_builtins (req_url req))
                 (body_with_answer sample_answer)))
        (fun path => Ok (path ++ u "_result.xlsx"))
        (fun _ _ => Ok tt).

(** Lines 136-139: the rows of the checklist and the header of the
    result tables. *)
Definition read_checklist (env : Env) (config : Config) : result (sheet * row) :=
  rows <- load_rows env (excel_path config) ;;
  headers <- make_headers rows ;;
  Ok (rows, headers).

(** [st'] is [st] with more log records and more files: nothing written
    earlier is lost. *)
Definition grows (st st' : State) : Prop :=
  (exists l, log st' = log st ++ l) /\ (exists f, files st' = files st ++ f).

(** A document fails with [e] when it cannot be read, when its result
    path cannot be computed or when its workbook cannot be saved. *)
Definition document_failure (env : Env) (word_path : pystr) (e : exn) : Prop :=
  docx_paragraphs env word_path = Raise e
  \/ (exists paragraphs,
        docx_paragraphs env word_path = Ok paragraphs
        /\ (result_path env word_path = Raise e
            \/ exists out,
                result_path env word_path = Ok out
                /\ forall ws, save_workbook env out ws = Raise e)).

(** A parse that did not run out of fuel and, when it gives a value,
    has read at least one character of [s]. *)
Definition consumes {A} (r : Json.pres A) (s : pystr) : Prop :=
  match r with
  | Json.PVal _ rest _ => length rest < length s
  | Json.PFail _ _ => True
  | Json.PFuel => False
  end.

(** ** The query string, as sent and as the specification words it *)

(** The text [json.dumps(query_data, ensure_ascii=False, indent=4)]
    gives for a query whose two values serialize to [s0] and [s1]:
    three lines, the two members indented by four spaces. *)
Definition indented_query (s0 s1 : pystr) : pystr :=
  u "{" ++ [LF]
    ++ u "    " ++ [DQUOTE] ++ u "条款" ++ [DQUOTE] ++ u ": " ++ s0 ++ u ","
    ++ [LF]
    ++ u "    " ++ [DQUOTE] ++ u "内容概要填写说明和提示" ++ [DQUOTE] ++ u ": "
    ++ s1 ++ [LF]
    ++ u "}".

(** The compact form the specification speaks of: the same object on
    one line with no white space between the tokens. *)
Definition compact_query (s0 s1 : pystr) : pystr :=
  u "{" ++ [DQUOTE] ++ u "条款" ++ [DQUOTE] ++ u ":" ++ s0 ++ u ","
    ++ [DQUOTE] ++ u "内容概要填写说明和提示" ++ [DQUOTE] ++ u ":" ++ s1
    ++ u "}".

(** The request envelope around a query string and a document text. *)
Definition envelope (query_json file_text : pystr) : pyval :=
  PDict [(u "response_mode", PStr (u "blocking"));
         (u "user", PStr (u "haha-partner"));
         (u "inputs", PDict [(u "Query", PStr query_json);
                             (u "File", PStr file_text)])].

(** ** States after a step *)

(** The request sent for a row, once the body is built. *)
Definition request_for (api_url' auth_token' payload : pyval) : Request :=
mkRequest api_url' payload (PDict [(u "Authorization", auth_token')]) 600.

Definition sent (st : State) (req : Request) : State :=
mkState (calls st ++ [req]) (log st) (files st).

Definition logged (st : State) (lv : level) (msg : pystr) : State :=
mkState (calls st) (log st ++ [(lv, msg)]) (files st).

(** ** The lines of a cleaned text *)

(** A character that may stand inside a line of the result: neither a
    line break nor any other control character. *)
Definition printable (c : N) : Prop := c <> LF /\ (31 < c)%N.

Definition dots : pystr := u "....".

(** A line after the removal of the dot leaders. *)
Definition line (q : pystr) : Prop :=
  q <> [] /\ Forall printable q /\ Re.find dots q = None.

(** ** Counting requests *)

(** From [st] to [st'] at most [n] requests were sent, and none sent
    earlier was forgotten. *)
Definition sends_at_most (n : nat) (st st' : State) : Prop :=
  exists sent_now, calls st' = calls st ++ sent_now /\ length sent_now <= n.


(** A paragraph that the cleaning has nothing to do on: not empty, no
    character of the class the first substitution replaces, no run of
    four periods. *)
Definition already_clean (p : pystr) : Prop :=
  p <> [] /\ Forall (fun c => is_blank c = false) p /\ Re.find dots p = None.

(** ** Texts that decode to a given value *)

(** A cell that is a string, empty, a boolean or a whole number. *)
Definition simple_cell (v : pyval) : Prop :=
  match v with
  | PStr _ | PNone | PBool _ | PInt _ => True
  | _ => False
  end.

(** [s] begins with a character that is not JSON white space. *)
Definition token_head (s : pystr) : bool :=
  match s with
  | c :: _ => negb (Json.is_ws c)
  | [] => false
  end.

(** [s] is empty or begins with a character that cannot continue a
    number. *)
Definition delimited (s : pystr) : bool :=
  match s with
  | c :: _ =>
      negb (Json.is_digit c || (c =? ch ".") || (c =? ch "e")
            || (c =? ch "E"))%N
  | [] => true
  end.

(** [txt] begins with a token and is read by [scan_once] as the value
    [v], whatever follows it that cannot continue a number. *)
Definition scans (py : Builtins) (v : pyval) (txt : pystr) : Prop :=
  token_head txt = true
  /\ forall f rest pos,
      delimited rest = true ->
      exists pos',
        Json.scan_once py (S f) (txt ++ rest) pos = Json.PVal v rest pos'.

Definition json_ws (ws : pystr) : Prop :=
  Forall (fun c => Json.is_ws c = true) ws.

(** A member of an object: the key between quotes, a colon and the
    text of the value, with white space [wa] and [wb] around the
    colon. *)
Definition member_text (key wa wb txt : pystr) : pystr :=
  Dumps.encode_basestring key ++ wa ++ u ":" ++ wb ++ txt.

(** The three fields of an answer, all strings, in the layout given
    by the white space [w 0], ..., [w 11] between the tokens, and the
    object that holds them. *)
Definition answer_members (w : nat -> pystr) (s1 s2 s3 : pystr) : pystr :=
  w 0
    ++ member_text (u "内容概要") (w 1) (w 2) (Dumps.encode_basestring s1)
    ++ w 3 ++ u "," ++ w 4
    ++ member_text (u "条款序号") (w 5) (w 6) (Dumps.encode_basestring s2)
    ++ w 7 ++ u "," ++ w 8
    ++ member_text (u "条款原文") (w 9) (w 10) (Dumps.encode_basestring s3)
    ++ w 11.

Definition answer_object (w : nat -> pystr) (s1 s2 s3 : pystr) : pystr :=
  u "{" ++ answer_members w s1 s2 s3 ++ u "}".

(** No backtick in [s]. *)
Definition no_backtick (s : pystr) : Prop := Forall (fun c => c <> 96%N) s.

(** A run of ASCII digits. *)
Definition digits (ds : pystr) : Prop :=
  Forall (fun c => Json.is_digit c = true) ds.

(** * Properties *)

(** ** Strings *)

Lemma str_eqb_eq a b : str_eqb a b = true <-> a = b.
Proof.
  unfold str_eqb. destruct (list_eq_dec N.eq_dec a b); split; congruence.
Qed.

Example u_marker : u "未提取" = [26410; 25552; 21462]%N.
Proof. reflexivity. Qed.

Example str_of_Z_samples :
  str_of_Z 0 = u "0" /\ str_of_Z 1234567890 = u "1234567890"
  /\ str_of_Z (-42) = u "-42" /\ str_of_Z 1000 = u "1000".
Proof. repeat split. Qed.



(** ** A run from end to end

    Two data rows: the first is answered, the second times out.  The
    file has both rows, the first with its content and an empty error,
    the second with the sentinel and the text of the timeout; each row
    cost one request. *)
Example end_to_end :
  let st := snd (main plain_builtins two_row_env initial) in
  fst (main plain_builtins two_row_env initial) = Ok tt
  /\ length (calls st) = 2
  /\ files st =
     [(u "contract_result.xlsx",
       [[PStr (u "条款"); PStr (u "内容概要填写说明和提示");
         PStr (u "内容概要"); PStr (u "条款序号"); PStr (u "条款原文");
         PStr (u "error")];
        [PStr (u "1"); PStr (u "parties"); PStr (u "a" ++ [LF] ++ u "b");
         PStr (u "1.1"); PStr NOT_EXTRACTED; PStr []];
        [PStr (u "2"); PStr (u "term"); PStr FAILED; PStr FAILED; PStr FAILED;
         PStr (u "Read timed out.")]])]
  /\ map req_json (calls st)
     = [envelope (indented_query (Dumps.encode_basestring (u "1"))
                    (Dumps.encode_basestring (u "parties")))
          (u "Contract" ++ [LF] ++ u "Clause 1.1   3");
        envelope (indented_query (Dumps.encode_basestring (u "2"))
                    (Dumps.encode_basestring (u "term")))
          (u "Contract" ++ [LF] ++ u "Clause 1.1   3")].
Proof. vm_compute. repeat split. Qed.

(** ** The decoder has fuel enough *)

Lemma skip_ws_length s : forall pos,
  length (fst (Json.skip_ws s pos)) <= length s.
Proof.
  induction s as [|c s IH]; intros pos; cbn; [lia|].
  destruct (Json.is_ws c); cbn; [|lia]. specialize (IH (pos + 1)%N). lia.
Qed.

Lemma span_digits_length s : length (snd (Json.span_digits s)) <= length s.
Proof.
  induction s as [|c s IH]; cbn; [lia|].
  destruct (Json.is_digit c); cbn; [|lia].
  destruct (Json.span_digits s); cbn in *. lia.
Qed.

Lemma hex4_length s v t : Json.hex4 s = Some (v, t) -> length s = 4 + length t.
Proof.
  destruct s as [|a [|b [|c [|d t']]]]; cbn; try discriminate.
  destruct (Json.hexval a), (Json.hexval b), (Json.hexval c), (Json.hexval d);
    try discriminate.
  intros H; inversion H; subst. reflexivity.
Qed.

Lemma consumes_weaken A (r : Json.pres A) s s' :
  consumes r s -> length s <= length s' -> consumes r s'.
Proof. destruct r; cbn; [lia|tauto|tauto]. Qed.

Lemma scanstring_fuel : forall fuel s pos begin acc,
  length s < fuel -> consumes (Json.scanstring fuel s pos begin acc) s.
Proof.
  induction fuel as [|f IH]; intros s pos begin acc Hf; [lia|].
  cbn [Json.scanstring].
  destruct s as [|c t]; [exact I|]. cbn [length] in Hf.
  destruct (c =? DQUOTE)%N; [cbn; lia|].
  destruct (c =? 92)%N.
  - destruct t as [|e t']; [exact I|]. cbn [length] in Hf.
    destruct (e =? ch "u")%N.
    + destruct (Json.hex4 t') as [[c1 t1]|] eqn:E1; [|exact I].
      apply hex4_length in E1.
      assert (Hlone : consumes
                (Json.scanstring f t1 (pos + 6)%N begin (c1 :: acc))
                (c :: e :: t')).
      { eapply consumes_weaken; [apply IH|]; cbn [length]; lia. }
      destruct (Json.is_high_surrogate c1 && (6 <? N.of_nat (length t1))%N
                && starts_with (u "\u") t1); [|exact Hlone].
      destruct (Json.hex4 (skipn 2 t1)) as [[c2 t3]|] eqn:E2; [|exact I].
      apply hex4_length in E2. rewrite length_skipn in E2.
      destruct (Json.is_low_surrogate c2); [|exact Hlone].
      eapply consumes_weaken; [apply IH|]; cbn [length] in *; lia.
    + destruct (Json.simple_escape e); [|exact I].
      eapply consumes_weaken; [apply IH|]; cbn [length]; lia.
  - destruct (c <=? 31)%N; [exact I|].
    eapply consumes_weaken; [apply IH|]; cbn [length]; lia.
Qed.

Lemma scanstring_key_fuel t pos begin :
  match Json.scanstring (S (length t)) t pos begin [] with
  | Json.PVal _ rest _ => length rest < length t
  | Json.PFail _ _ => True
  | Json.PFuel => False
  end.
Proof. apply (@scanstring_fuel (S (length t)) t pos begin []). lia. Qed.

Lemma match_number_consumes py s pos :
  consumes (Json.match_number py s pos) s.
Proof.
  unfold Json.match_number.
  set (split_sign := match s with
                     | c :: t => if (c =? ch "-")%N then ([c], t) else ([], s)
                     | [] => ([], s)
                     end).
  assert (Hsign : length (snd split_sign) <= length s).
  { subst split_sign. destruct s as [|c t]; [cbn; lia|].
    destruct (c =? ch "-")%N; cbn [snd length]; lia. }
  destruct split_sign as [sign s1]. cbn [snd] in Hsign.
  destruct s1 as [|d t1]; [exact I|]. cbn [length] in Hsign.
  set (int_part := if ((49 <=? d)%N && (d <=? 57)%N)%bool
                   then let (ds, r) := Json.span_digits t1 in Some (d :: ds, r)
                   else if (d =? 48)%N then Some ([d], t1) else None).
  assert (Hint : forall ints r1, int_part = Some (ints, r1) ->
                                 length r1 <= length t1).
  { subst int_part. intros ints r1.
    pose proof (span_digits_length t1) as Hd.
    destruct ((49 <=? d)%N && (d <=? 57)%N)%bool.
    - destruct (Json.span_digits t1); cbn in Hd.
      intros H; inversion H; subst. exact Hd.
    - destruct (d =? 48)%N; [|discriminate].
      intros H; inversion H; subst. lia. }
  destruct int_part as [[ints r1]|]; [|exact I].
  specialize (Hint ints r1 eq_refl).
  set (frac_part := match r1 with
                    | p :: d1 :: t2 =>
                        if ((p =? ch ".")%N && Json.is_digit d1)%bool
                        then let (ds, r) := Json.span_digits t2 in
                             (p :: d1 :: ds, r)
                        else ([], r1)
                    | _ => ([], r1)
                    end).
  assert (Hfrac : length (snd frac_part) <= length r1).
  { subst frac_part. destruct r1 as [|p [|d1 t2]]; try (cbn; lia).
    pose proof (span_digits_length t2) as Hd.
    destruct ((p =? ch ".")%N && Json.is_digit d1)%bool;
      [|cbn [snd length]; lia].
    destruct (Json.span_digits t2); cbn [snd length] in *. lia. }
  destruct frac_part as [frac r2]. cbn [snd] in Hfrac.
  set (exp_part := match r2 with
                   | e :: t3 =>
                       if ((e =? ch "e") || (e =? ch "E"))%N
                       then
                         let '(sg, t4) :=
                           match t3 with
                           | g :: t' =>
                               if ((g =? ch "-") || (g =? ch "+"))%N
                               then ([g], t') else ([], t3)
                           | [] => ([], t3)
                           end in
                         match Json.span_digits t4 with
                         | ([], _) => ([], r2)
                         | (ds, r) => (e :: sg ++ ds, r)
                         end
                       else ([], r2)
                   | [] => ([], r2)
                   end).
  assert (Hexp : length (snd exp_part) <= length r2).
  { subst exp_part. destruct r2 as [|e t3]; cbn [snd length]; [lia|].
    destruct ((e =? ch "e") || (e =? ch "E"))%N; cbn [snd length]; [|lia].
    assert (Hsg : forall sg t4,
               match t3 with
               | g :: t' =>
                   if ((g =? ch "-") || (g =? ch "+"))%N
                   then ([g], t') else ([], t3)
               | [] => ([], t3)
               end = (sg, t4) -> length t4 <= length t3).
    { intros sg t4. destruct t3 as [|g t']; [intros H; inversion H; cbn; lia|].
      destruct ((g =? ch "-") || (g =? ch "+"))%N;
        intros H; inversion H; cbn [length]; lia. }
    destruct (match t3 with
              | g :: t' =>
                  if ((g =? ch "-") || (g =? ch "+"))%N
                  then ([g], t') else ([], t3)
              | [] => ([], t3)
              end) as [sg t4].
    specialize (Hsg sg t4 eq_refl).
    pose proof (span_digits_length t4) as Hd.
    destruct (Json.span_digits t4) as [[|x ds] r]; cbn [snd length] in *; lia. }
  destruct exp_part as [expo r3]. cbn [snd] in Hexp.
  cbn [consumes length]. lia.
Qed.

Lemma at_head_cons c s : Json.at_head c s = true -> length s = S (length (tl s)).
Proof. destruct s; [discriminate|reflexivity]. Qed.

(** Twice the length of the text, and one more inside an object or an
    array, is fuel enough: a value costs one unit and a turn of either
    loop one more, and each reads at least one character. *)
Lemma scan_fuel py : forall fuel,
  (forall s pos, 2 * length s < fuel ->
     consumes (Json.scan_once py fuel s pos) s)
  /\ (forall s pos acc, 2 * length s + 1 < fuel ->
        consumes (Json.parse_members py fuel s pos acc) s)
  /\ (forall s pos acc, 2 * length s + 1 < fuel ->
        consumes (Json.parse_elements py fuel s pos acc) s).
Proof.
  induction fuel as [|f (IHscan & IHmem & IHelt)];
    [repeat split; intros; lia|].
  split; [|split].
  - intros s pos Hf. cbn [Json.scan_once].
    destruct s as [|c t]; [exact I|]. cbn [length] in Hf.
    destruct (c =? DQUOTE)%N.
    { pose proof (scanstring_key_fuel t (pos + 1)%N pos) as H.
      destruct (Json.scanstring _ t _ pos []); cbn in *; try tauto. lia. }
    destruct (c =? ch "{")%N.
    { pose proof (skip_ws_length t (pos + 1)%N) as Hw.
      destruct (Json.skip_ws t (pos + 1)%N) as [t' p']. cbn [fst] in Hw.
      destruct (Json.at_head (ch "}") t') eqn:E.
      - apply at_head_cons in E. cbn. lia.
      - eapply consumes_weaken; [apply IHmem|]; cbn [length]; lia. }
    destruct (c =? ch "[")%N.
    { pose proof (skip_ws_length t (pos + 1)%N) as Hw.
      destruct (Json.skip_ws t (pos + 1)%N) as [t' p']. cbn [fst] in Hw.
      destruct (Json.at_head (ch "]") t') eqn:E.
      - apply at_head_cons in E. cbn. lia.
      - eapply consumes_weaken; [apply IHelt|]; cbn [length]; lia. }
    repeat match goal with
      | |- consumes (if ?b then Json.PVal _ (skipn ?n t) _ else _) _ =>
          destruct b; [cbn [consumes length]; rewrite length_skipn; lia|]
      end.
    apply match_number_consumes.
  - intros s pos acc Hf. cbn [Json.parse_members].
    destruct (Json.at_head DQUOTE s) eqn:E0; [|exact I].
    apply at_head_cons in E0.
    pose proof (scanstring_key_fuel (tl s) (pos + 1)%N pos) as H1.
    destruct (Json.scanstring _ (tl s) _ pos []) as [key r1 p1| |];
      [|exact I|exact H1].
    pose proof (skip_ws_length r1 p1) as H2.
    destruct (Json.skip_ws r1 p1) as [r2 p2]. cbn [fst] in H2.
    destruct (Json.at_head (ch ":") r2) eqn:E2; [|exact I].
    apply at_head_cons in E2.
    pose proof (skip_ws_length (tl r2) (p2 + 1)%N) as H4.
    destruct (Json.skip_ws (tl r2) (p2 + 1)%N) as [r4 p4]. cbn [fst] in H4.
    assert (H5 : consumes (Json.scan_once py f r4 p4) r4)
      by (apply IHscan; lia).
    destruct (Json.scan_once py f r4 p4) as [v r5 p5| |];
      [|exact I|exact H5]. cbn in H5.
    pose proof (skip_ws_length r5 p5) as H6.
    destruct (Json.skip_ws r5 p5) as [r6 p6]. cbn [fst] in H6.
    destruct (Json.at_head (ch "}") r6) eqn:E6.
    { apply at_head_cons in E6. cbn. lia. }
    destruct (Json.at_head (ch ",") r6) eqn:E7; [|exact I].
    apply at_head_cons in E7.
    pose proof (skip_ws_length (tl r6) (p6 + 1)%N) as H8.
    destruct (Json.skip_ws (tl r6) (p6 + 1)%N) as [r8 p8]. cbn [fst] in H8.
    eapply consumes_weaken; [apply IHmem|]; lia.
  - intros s pos acc Hf. cbn [Json.parse_elements].
    assert (H1 : consumes (Json.scan_once py f s pos) s)
      by (apply IHscan; lia).
    destruct (Json.scan_once py f s pos) as [v r1 p1| |];
      [|exact I|exact H1]. cbn in H1.
    pose proof (skip_ws_length r1 p1) as H2.
    destruct (Json.skip_ws r1 p1) as [r2 p2]. cbn [fst] in H2.
    destruct (Json.at_head (ch "]") r2) eqn:E2.
    { apply at_head_cons in E2. cbn. lia. }
    destruct (Json.at_head (ch ",") r2) eqn:E3; [|exact I].
    apply at_head_cons in E3.
    pose proof (skip_ws_length (tl r2) (p2 + 1)%N) as H4.
    destruct (Json.skip_ws (tl r2) (p2 + 1)%N) as [r4 p4]. cbn [fst] in H4.
    eapply consumes_weaken; [apply IHelt|]; lia.
Qed.

(** [loads] never runs out of fuel: it raises nothing but a
    [JSONDecodeError]. *)
Lemma loads_fuel py s e :
  Json.loads py s = Raise e -> exn_class e = "JSONDecodeError"%string.
Proof.
  unfold Json.loads.
  destruct (starts_with _ s); [intros H; inversion H; reflexivity|].
  pose proof (skip_ws_length s 0%N) as Hw.
  destruct (Json.skip_ws s 0%N) as [s0 p0]. cbn [fst] in Hw.
  destruct (scan_fuel py (2 * length s + 2)) as (Hscan & _).
  specialize (Hscan s0 p0). 
  destruct (Json.scan_once py _ s0 p0) as [v r1 p1|m p|].
  - destruct (Json.skip_ws r1 p1) as [r2 p2].
    destruct r2; intros H; inversion H. reflexivity.
  - intros H; inversion H. reflexivity.
  - exfalso. apply Hscan. lia.
Qed.

(** ** Every exception the row processing raises has a text *)












(** Splitting a [bind] that raised. *)
Lemma bind_raise A B (r : result A) (k : A -> result B) e :
  bind r k = Raise e ->
  r = Raise e \/ exists a, r = Ok a /\ k a = Raise e.
Proof. destruct r as [a|e0]; cbn; intros H; [right; eauto|left; congruence]. Qed.

Ltac split_bind H :=
  let a := fresh "a" in
  let Ha := fresh "Ha" in
  apply bind_raise in H; destruct H as [H | (a & Ha & H)].







(** ** The steps of [process_excel_row] *)

Section RowProcessor.
Variable py : Builtins.
Variable env : Env.

(** The [try] block, step by step: the body is built, the request is
    sent, the status is checked, the answer is extracted; the first
    step that raises ends it. *)
Lemma row_attempt_steps r ft a t st :
  row_attempt py env r ft a t st =
    match build_payload r ft with
    | Raise e => (Raise e, st)
    | Ok payload =>
        let req := request_for a t payload in
        match http_post env (length (calls st)) req with
        | Raise e => (Raise e, sent st req)
        | Ok response =>
            match raise_for_status response with
            | Raise e => (Raise e, sent st req)
            | Ok _ => (extract py response, sent st req)
            end
        end
    end.
Proof.
  unfold row_attempt, mbind, lift, requests_post, request_for, sent.
  destruct (build_payload r ft) as [payload|e]; [|reflexivity].
  cbn. destruct (http_post env _ _) as [response|e]; [|reflexivity].
  destruct (raise_for_status response); reflexivity.
Qed.

(** With a first cell to name in the log, the handler turns whatever
    the [try] block raised into a result. *)
Lemma process_excel_row_steps c0 rest ft a t st :
  process_excel_row py env (c0 :: rest) ft a t st =
    match row_attempt py env (c0 :: rest) ft a t st with
    | (Ok res, st') => (Ok res, st')
    | (Raise e, st') =>
        (Ok (failure_result e),
         logged st' ERROR
           (u "处理行失败: " ++ py_str py c0 ++ u " - " ++ exn_str e))
    end.
Proof.
  unfold process_excel_row, try_except.
  destruct (row_attempt py env (c0 :: rest) ft a t st) as [[res|e] st'];
    reflexivity.
Qed.


End RowProcessor.

(** ** C1: the row processor always answers with a result *)




(** ** C9: one request per row *)

(** C9, as stated, fails on a row without cells: the request cannot be
    built, no call is made, and instead of a sentinel-filled result the
    [IndexError] raised by the log line of the [except] block leaves
    the function. *)
Lemma empty_row_counterexample :
  build_payload [] (u "text")
  = Raise (mkExn "IndexError" (u "tuple index out of range"))
  /\ (forall res st',
        process_excel_row plain_builtins offline_env [] (u "text")
          sample_url sample_token initial <> (Ok res, st'))
  /\ calls (snd (process_excel_row plain_builtins offline_env [] (u "text")
                   sample_url sample_token initial)) = [].
Proof.
  split; [reflexivity|]. split; [|reflexivity].
  intros res st'. vm_compute. discriminate.
Qed.

(** C9 (amended): for a row with at least one cell, an invocation makes
    exactly one call when the request body is built, with that body,
    and none when building it raises, as it does for a row with a
    single cell; in that case the sentinel-filled result is returned.
    There is never a second call. *)
Theorem one_call_per_row py env r ft a t st :
  r <> [] ->
  exists res st',
    process_excel_row py env r ft a t st = (Ok res, st') /\
    match build_payload r ft with
    | Ok payload => calls st' = calls st ++ [request_for a t payload]
    | Raise e => calls st' = calls st /\ res = failure_result e
    end /\
    (length r < 2 -> exists e, build_payload r ft = Raise e).
Proof.
  intros Hr. destruct r as [|c0 rest]; [congruence|].
  rewrite process_excel_row_steps, row_attempt_steps.
  assert (Hshort : length (c0 :: rest) < 2 ->
                   exists e, build_payload (c0 :: rest) ft = Raise e).
  { destruct rest; cbn; [eauto|lia]. }
  destruct (build_payload (c0 :: rest) ft) as [payload|e].
  - cbn zeta. destruct (http_post env _ _) as [response|e].
    + destruct (raise_for_status response) as [|e].
      * destruct (extract py response) as [res|e];
          eexists _, _; (split; [reflexivity|]); split; auto.
      * eexists _, _; (split; [reflexivity|]); split; auto.
    + eexists _, _; (split; [reflexivity|]); split; auto.
  - eexists _, _; (split; [reflexivity|]); split; auto.
Qed.

Lemma one_call_per_row_witness :
  exists res st',
    process_excel_row plain_builtins offline_env [PStr (u "1.1")] (u "text")
      sample_url sample_token initial = (Ok res, st')
    /\ calls st' = [] /\ summary res = FAILED.
Proof.
  destruct (@one_call_per_row plain_builtins offline_env [PStr (u "1.1")]
              (u "text") sample_url sample_token initial)
    as (res & st' & Hrun & Hcalls & _).
  - discriminate.
  - exists res, st'. split; [exact Hrun|].
    cbn in Hcalls. destruct Hcalls as [-> ->]. split; reflexivity.
Defined.

(** ** C2: the text of a field *)

(** C2, as stated, fails for an absent field: [result.get(key, '')]
    supplies the empty string, which [convert_list_to_str] returns
    unchanged, so the text is empty and not the marker. *)
Lemma absent_field_counterexample :
  field_text plain_builtins (PDict []) (u "内容概要") = Ok []
  /\ extract_answer plain_builtins (PStr (u "```json{}```"))
     = Ok (mkRowResult [] [] [] []).
Proof. split; vm_compute; reflexivity. Qed.

(** C2 (amended): for each named field of the decoded payload, a list
    value gives its members' [str()] joined by newlines in their order,
    a null value gives the marker ['未提取'], which is not empty, any
    other present value gives its [str()], and an absent field gives
    the empty string. *)
Theorem field_text_cases py d key :
  field_text py (PDict d) key =
    Ok (match dict_lookup d key with
        | Some (PList items) => join [LF] (map (py_str py) items)
        | Some PNone => NOT_EXTRACTED
        | Some v => py_str py v
        | None => []
        end)
  /\ NOT_EXTRACTED <> [].
Proof.
  split; [|discriminate].
  unfold field_text, py_get, bind.
  destruct (dict_lookup d key) as [[]|]; reflexivity.
Qed.

(** ** The output row *)

Lemma build_new_row_long c0 c1 c2 c3 c4 rest res :
  build_new_row (c0 :: c1 :: c2 :: c3 :: c4 :: rest) res =
    Ok (c0 :: c1 :: content_cells res ++ rest ++ [PStr (error res)]).
Proof. reflexivity. Qed.


Lemma build_new_row_short r res :
  length r < 4 ->
  build_new_row r res =
    Raise (mkExn "IndexError" (u "list assignment index out of range")).
Proof.
  destruct r as [|c0 [|c1 [|c2 [|c3 rest]]]]; cbn; try reflexivity; lia.
Qed.

Section DocumentRunner.
Variable py : Builtins.
Variable env : Env.
Variable config : Config.
Variable file_text : pystr.

(** A turn of the row loop always adds exactly one row. *)
Lemma row_step_adds_one new_ws idx r st :
  exists o st',
    row_step py env config file_text new_ws idx r st
    = (Ok (new_ws ++ [o]), st')
    /\ row_output py env config file_text r o.
Proof.
  assert (Hhandler : forall e : exn,
             length (r ++ [PStr (exn_str e)]) = S (length r)
             /\ forall i, i < 2 -> i < length r ->
                  nth_error (r ++ [PStr (exn_str e)]) i = nth_error r i).
  { intros e. split; [rewrite length_app; cbn; lia|].
    intros i _ Hi. now rewrite nth_error_app1. }
  unfold row_step, try_except, mbind, lift, ret, logger, config_getitem.
  destruct (api_url config) as [a|] eqn:Ea.
  2:{ eexists _, _. split; [reflexivity|].
      destruct (Hhandler (mkExn "KeyError" (u "'" ++ u "api_url" ++ u "'")))
        as [H1 H2].
      split; [exact H1|]. split; [exact H2|]. intros _ a t Ha. congruence. }
  destruct (auth_token config) as [t|] eqn:Et.
  2:{ eexists _, _. split; [reflexivity|].
      destruct (Hhandler (mkExn "KeyError" (u "'" ++ u "auth_token" ++ u "'")))
        as [H1 H2].
      split; [exact H1|]. split; [exact H2|]. intros _ a' t _ Ht.
      congruence. }
  destruct (process_excel_row py env r file_text a t st)
    as [[res|e] st1] eqn:Erow.
  - destruct r as [|c0 [|c1 [|c2 [|c3 [|c4 rest]]]]];
      try (eexists _, _; split; [reflexivity|];
           split; [reflexivity|]; split;
           [intros [|[|i]] Hi Hl; cbn in *; try reflexivity; lia
           |cbn; intros; lia]).
    rewrite build_new_row_long.
    eexists _, _. split; [reflexivity|]. split.
    { cbn. rewrite !length_app. cbn. lia. }
    split.
    { intros [|[|i]] Hi Hl; cbn in *; try reflexivity; lia. }
    intros _ a' t' Ha Ht.
    assert (a' = a) by congruence. assert (t' = t) by congruence. subst a' t'.
    exists res, st, st1. split; [exact Erow|]. reflexivity.
  - destruct r as [|c0 rest].
    + eexists _, _. split; [reflexivity|].
      destruct (Hhandler e) as [H1 H2].
      split; [exact H1|]. split; [exact H2|]. cbn; intros; lia.
    + exfalso. rewrite process_excel_row_steps in Erow.
      destruct (row_attempt py env (c0 :: rest) file_text a t st)
        as [[res|e'] st']; discriminate.
Qed.

(** The row loop never raises and adds one row per data row, in
    order. *)
Lemma rows_loop_adds_rows data : forall new_ws idx st,
  exists outs st',
    rows_loop py env config file_text new_ws idx data st
    = (Ok (new_ws ++ outs), st')
    /\ Forall2 (row_output py env config file_text) data outs.
Proof.
  induction data as [|r data IH]; intros new_ws idx st.
  - exists [], st. cbn. rewrite app_nil_r. split; [reflexivity|constructor].
  - destruct (row_step_adds_one new_ws idx r st) as (o & st1 & Hstep & Ho).
    destruct (IH (new_ws ++ [o]) (S idx) st1) as (outs & st2 & Hloop & Houts).
    exists (o :: outs), st2. split; [|now constructor].
    cbn [rows_loop]. unfold mbind at 1. rewrite Hstep, Hloop.
    now rewrite <- app_assoc.
Qed.

End DocumentRunner.

(** ** C3: the table of a document *)



(** ** C10: a row of four cells *)



(** ** What a run leaves in the log and on disk only grows *)

Lemma grows_refl st : grows st st.
Proof. split; exists []; now rewrite app_nil_r. Qed.

Lemma grows_trans st1 st2 st3 : grows st1 st2 -> grows st2 st3 -> grows st1 st3.
Proof.
  intros [[l1 H1] [f1 G1]] [[l2 H2] [f2 G2]]. split.
  - exists (l1 ++ l2). now rewrite H2, H1, app_assoc.
  - exists (f1 ++ f2). now rewrite G2, G1, app_assoc.
Qed.

Lemma grows_logged st lv msg : grows st (logged st lv msg).
Proof. split; cbn; [now eexists|exists []; now rewrite app_nil_r]. Qed.

Lemma grows_sent st req : grows st (sent st req).
Proof. split; exists []; cbn; now rewrite app_nil_r. Qed.



Section Growth.
Variable py : Builtins.
Variable env : Env.

Lemma row_attempt_grows r ft a t st :
  grows st (snd (row_attempt py env r ft a t st)).
Proof.
  rewrite row_attempt_steps.
  destruct (build_payload r ft); [|apply grows_refl].
  cbn zeta. destruct (http_post env _ _); [|apply grows_sent].
  destruct (raise_for_status _); apply grows_sent.
Qed.

Lemma process_excel_row_grows r ft a t st :
  grows st (snd (process_excel_row py env r ft a t st)).
Proof.
  pose proof (row_attempt_grows r ft a t st) as H.
  destruct r as [|c0 rest].
  - unfold process_excel_row, try_except.
    destruct (row_attempt py env [] ft a t st) as [[res|e] st']; exact H.
  - rewrite process_excel_row_steps.
    destruct (row_attempt py env (c0 :: rest) ft a t st) as [[res|e] st'];
      [exact H|].
    eapply grows_trans; [exact H|apply grows_logged].
Qed.

Lemma row_step_grows config ft new_ws idx r st :
  grows st (snd (row_step py env config ft new_ws idx r st)).
Proof.
  unfold row_step, try_except, mbind, lift, ret, config_getitem.
  destruct (api_url config) as [a|]; [|apply grows_logged].
  destruct (auth_token config) as [t|]; [|apply grows_logged].
  pose proof (process_excel_row_grows r ft a t st) as H.
  destruct (process_excel_row py env r ft a t st) as [[res|e] st1].
  - destruct (build_new_row r res); [exact H|].
    eapply grows_trans; [exact H|apply grows_logged].
  - eapply grows_trans; [exact H|apply grows_logged].
Qed.

Lemma rows_loop_grows config ft data : forall new_ws idx st,
  grows st (snd (rows_loop py env config ft new_ws idx data st)).
Proof.
  induction data as [|r data IH]; intros new_ws idx st; [apply grows_refl|].
  cbn [rows_loop]. unfold mbind at 1.
  pose proof (row_step_grows config ft new_ws idx r st) as H.
  destruct (row_step py env config ft new_ws idx r st) as [[ws1|e] st1];
    [|exact H].
  eapply grows_trans; [exact H|apply IH].
Qed.

End Growth.

(** ** Documents, one after the other *)

Section Pipeline.
Variable py : Builtins.
Variable env : Env.
Variable config : Config.
Variable headers : row.
Variable rows : sheet.

Lemma read_word_file_steps file_path st :
  read_word_file env file_path st =
    match docx_paragraphs env file_path with
    | Ok paragraphs =>
        (Ok (normalize_text paragraphs),
         logged st INFO (u "成功读取Word文件: " ++ file_path))
    | Raise e =>
        (Raise e,
         logged st ERROR
           (u "读取Word文件失败: " ++ file_path ++ u " - " ++ exn_str e))
    end.
Proof.
  unfold read_word_file, try_except, mbind, lift.
  destruct (docx_paragraphs env file_path); reflexivity.
Qed.

(** What one document contributes.  The turn never raises.  When the
    document fails, the failure is logged; when it is read, its result
    path computed and the workbook saved, the file holds the header and
    one row per data row. *)
Lemma document_step_outcome word_path st :
  exists st',
    document_step py env config headers rows word_path st = (Ok tt, st')
    /\ grows st st'
    /\ (forall e, document_failure env word_path e ->
          In (ERROR, u "处理文件失败: " ++ word_path ++ u " - " ++ exn_str e)
             (log st'))
    /\ (forall paragraphs out,
          docx_paragraphs env word_path = Ok paragraphs ->
          result_path env word_path = Ok out ->
          (forall ws, save_workbook env out ws = Ok tt) ->
          exists outs,
            In (out, headers :: outs) (files st')
            /\ Forall2 (row_output py env config (normalize_text paragraphs))
                 (tl rows) outs).
Proof.
  unfold document_step, try_except. unfold mbind at 1.
  rewrite read_word_file_steps. unfold document_failure.
  destruct (docx_paragraphs env word_path) as [paragraphs|e] eqn:Edoc.
  - set (st0 := logged st INFO (u "成功读取Word文件: " ++ word_path)).
    unfold mbind at 1.
    destruct (rows_loop_adds_rows py env config (normalize_text paragraphs)
                (tl rows) [headers] 1 st0) as (outs & st1 & Hloop & Houts).
    pose proof (rows_loop_grows py env config (normalize_text paragraphs)
                  (tl rows) [headers] 1 st0) as Hg.
    rewrite Hloop in Hg |- *. cbn [snd] in Hg.
    assert (G1 : grows st st1)
      by (eapply grows_trans; [apply grows_logged|exact Hg]).
    unfold mbind, lift, save, logger.
    destruct (result_path env word_path) as [out|e] eqn:Epath.
    + destruct (save_workbook env out ([headers] ++ outs)) as [[]|e] eqn:Esave.
      * eexists. split; [reflexivity|]. split.
        { eapply grows_trans; [exact G1|]. split; cbn; eauto. }
        split.
        { intros e [He|(ps & _ & [He|(out' & Ho & He)])]; try discriminate.
          inversion Ho; subst out'. rewrite He in Esave. discriminate. }
        intros paragraphs' out' Hp Ho _. inversion Hp; inversion Ho; subst.
        exists outs. split; [|exact Houts].
        cbn. apply in_or_app. right. now left.
      * eexists. split; [reflexivity|]. split.
        { eapply grows_trans; [exact G1|apply grows_logged]. }
        split.
        { intros e' [He|(ps & _ & [He|(out' & Ho & He)])]; try discriminate.
          inversion Ho; subst out'. rewrite He in Esave.
          inversion Esave; subst e'. cbn. apply in_or_app. right. now left. }
        intros paragraphs' out' Hp Ho Hsave. inversion Ho; subst.
        rewrite Hsave in Esave. discriminate.
    + eexists. split; [reflexivity|]. split.
      { eapply grows_trans; [exact G1|apply grows_logged]. }
      split.
      { intros e' [He|(ps & _ & [He|(out' & Ho & He)])]; try discriminate.
        inversion He; subst e'. cbn. apply in_or_app. right. now left. }
      intros paragraphs' out' Hp Ho. discriminate.
  - eexists. split; [reflexivity|]. split.
    { eapply grows_trans; apply grows_logged. }
    split.
    + intros e' [He|(ps & Hps & _)]; [|discriminate].
      inversion He; subst. cbn. apply in_or_app. right. now left.
    + intros paragraphs out Hp. discriminate.
Qed.

End Pipeline.

(** The loop over the documents never raises. *)
Lemma documents_loop_returns py env config headers rows paths : forall st,
  exists st',
    documents_loop py env config headers rows paths st = (Ok tt, st')
    /\ grows st st'.
Proof.
  induction paths as [|p0 paths IH]; intros st.
  - exists st. split; [reflexivity|apply grows_refl].
  - destruct (document_step_outcome py env config headers rows p0 st)
      as (st1 & Hstep & G1 & _).
    destruct (IH st1) as (st2 & Hloop & G2).
    exists st2. split; [|eapply grows_trans; eauto].
    cbn [documents_loop]. unfold mbind. now rewrite Hstep.
Qed.

(** ** C4: a failing document does not stop the others *)


(** ** C8: what ends a run *)

Lemma process_documents_steps py env config st :
  process_documents py env config st =
    match read_checklist env config with
    | Raise e => (Raise e, logged st ERROR (u "主流程异常: " ++ exn_str e))
    | Ok (rows, headers) =>
        documents_loop py env config headers rows (word_paths config) st
    end.
Proof.
  unfold process_documents, read_checklist, try_except, mbind, lift.
  destruct (load_rows env (excel_path config)) as [rows|e]; [|reflexivity].
  cbn [bind]. destruct (make_headers rows) as [headers|e]; [|reflexivity].
  cbn [bind].
  destruct (documents_loop_returns py env config headers rows
              (word_paths config) st) as (st' & H & _).
  now rewrite H.
Qed.

(** C8, as stated, fails when the checklist cannot be read: the outer
    handler of [process_documents] logs and raises again, no document
    is processed, no file is written, and the run ends in the handler
    of the entry point exactly as it does when the configuration cannot
    be loaded. *)
Lemma checklist_failure_counterexample :
  read_config no_checklist_env = Ok sample_config
  /\ word_paths sample_config <> []
  /\ fst (process_documents plain_builtins no_checklist_env sample_config initial)
     = Raise (mkExn "FileNotFoundError" (u "checklist.xlsx"))
  /\ calls (snd (main plain_builtins no_checklist_env initial)) = []
  /\ files (snd (main plain_builtins no_checklist_env initial)) = []
  /\ log (snd (main plain_builtins no_checklist_env initial))
     = [(INFO, u "配置文件加载成功");
        (ERROR, u "主流程异常: checklist.xlsx");
        (ERROR, u "程序异常终止: checklist.xlsx")].
Proof. repeat split; try discriminate; vm_compute; reflexivity. Qed.

(** C8 (amended): a run always completes: the entry point catches and
    logs whatever reaches it.  Two failures end the work before any
    document is processed, with no request sent and no file written:
    the failure to load the configuration, and the failure to read the
    checklist (or a checklist without a header row), which
    [process_documents] logs and raises again.  Once the checklist is
    read, [process_documents] returns normally whatever fails for the
    documents and rows, and every document has its turn. *)
Theorem run_outcomes py env st :
  exists st',
    main py env st = (Ok tt, st') /\
    match read_config env with
    | Raise e =>
        calls st' = calls st /\ files st' = files st
        /\ log st' = log st ++ [(ERROR, u "配置文件加载失败: " ++ exn_str e);
                                (ERROR, u "程序异常终止: " ++ exn_str e)]
    | Ok config =>
        let st0 := logged st INFO (u "配置文件加载成功") in
        match read_checklist env config with
        | Raise e =>
            fst (process_documents py env config st0) = Raise e
            /\ calls st' = calls st /\ files st' = files st
            /\ log st' = log st0 ++ [(ERROR, u "主流程异常: " ++ exn_str e);
                                     (ERROR, u "程序异常终止: " ++ exn_str e)]
        | Ok (rows, headers) =>
            fst (process_documents py env config st0) = Ok tt
            /\ st' = snd (documents_loop py env config headers rows
                           (word_paths config) st0)
        end
    end.
Proof.
  unfold main, load_config, try_except, mbind, lift, logger, ret, raise.
  destruct (read_config env) as [config|e].
  - fold (logged st INFO (u "配置文件加载成功")).
    rewrite process_documents_steps.
    destruct (read_checklist env config) as [[rows headers]|e].
    + destruct (documents_loop_returns py env config headers rows
                  (word_paths config) (logged st INFO (u "配置文件加载成功")))
        as (st' & H & _).
      rewrite H. exists st'. repeat split.
    + eexists. split; [reflexivity|]. cbn. rewrite <- app_assoc. repeat split.
  - eexists. split; [reflexivity|]. cbn. rewrite <- app_assoc. repeat split.
Qed.

(** ** C5: the fenced block of the specification *)

Lemma starts_with_app_long p : forall l x,
  length p <= length l -> starts_with p (l ++ x) = starts_with p l.
Proof.
  induction p as [|a p IH]; intros [|b l] x H; cbn in *; try reflexivity;
    try lia.
  rewrite IH by lia. reflexivity.
Qed.

Lemma starts_with_self p rest : starts_with p (p ++ rest) = true.
Proof. induction p; cbn; [reflexivity|]. now rewrite N.eqb_refl. Qed.

Lemma skipn_length_app (p rest : pystr) : skipn (length p) (p ++ rest) = rest.
Proof. induction p; cbn; auto. Qed.

Lemma find_unfold needle s :
  Re.find needle s =
    if starts_with needle s then Some ([], skipn (length needle) s)
    else match s with
         | [] => None
         | c :: t =>
             match Re.find needle t with
             | Some (before, after) => Some (c :: before, after)
             | None => None
             end
         end.
Proof. destruct s; reflexivity. Qed.

Lemma find_here needle rest : Re.find needle (needle ++ rest) = Some ([], rest).
Proof.
  rewrite find_unfold, starts_with_self. now rewrite skipn_length_app.
Qed.

Lemma find_cons needle c s :
  starts_with needle (c :: s) = false ->
  Re.find needle (c :: s) =
    match Re.find needle s with
    | Some (before, after) => Some (c :: before, after)
    | None => None
    end.
Proof. intros H. rewrite find_unfold. now rewrite H. Qed.

(** The opening fence does not overlap itself: it cannot start in the
    last six characters before an occurrence. *)
Lemma opening_fence_no_overlap q rest :
  q <> [] -> length q < 7 ->
  starts_with (u "```json") (q ++ u "```json" ++ rest) = false.
Proof.
  intros Hq Hlen.
  destruct q as [|c1 [|c2 [|c3 [|c4 [|c5 [|c6 [|c7 q]]]]]]];
    try congruence; cbn in Hlen; try lia; clear Hq Hlen;
    change (u "```json") with [96; 96; 96; 106; 115; 111; 110]%N;
    cbn -[N.eqb];
    repeat match goal with
      | |- context [(?a =? ?c)%N] =>
          destruct (N.eqb_spec a c); try congruence; cbn -[N.eqb]
      end; reflexivity.
Qed.

Lemma find_opening_fence prefix rest :
  Re.find (u "```json") prefix = None ->
  Re.find (u "```json") (prefix ++ u "```json" ++ rest) = Some (prefix, rest).
Proof.
  induction prefix as [|c p IH]; intros H;
    [exact (find_here (u "```json") rest)|].
  assert (Hs : starts_with (u "```json") (c :: p) = false).
  { rewrite find_unfold in H. destruct (starts_with (u "```json") (c :: p));
      [discriminate|reflexivity]. }
  rewrite find_cons in H by exact Hs.
  assert (Hp : Re.find (u "```json") p = None).
  { destruct (Re.find (u "```json") p) as [[? ?]|]; [discriminate|reflexivity]. }
  change ((c :: p) ++ u "```json" ++ rest)
    with (c :: (p ++ u "```json" ++ rest)).
  assert (Hs' : starts_with (u "```json") (c :: (p ++ u "```json" ++ rest))
                = false).
  { destruct (Nat.le_gt_cases 7 (length (c :: p))) as [Hlong|Hshort].
    - change (c :: p ++ u "```json" ++ rest)
        with ((c :: p) ++ u "```json" ++ rest).
      rewrite starts_with_app_long by exact Hlong. exact Hs.
    - apply (@opening_fence_no_overlap (c :: p));
        [discriminate|exact Hshort]. }
  rewrite (find_cons _ _ _ Hs'), (IH Hp). reflexivity.
Qed.

Lemma find_closing_fence body suffix :
  Forall (fun c => c <> 96%N) body ->
  Re.find (u "```") (body ++ u "```" ++ suffix) = Some (body, suffix).
Proof.
  induction 1 as [|c body Hc _ IH]; [exact (find_here (u "```") suffix)|].
  change ((c :: body) ++ u "```" ++ suffix)
    with (c :: (body ++ u "```" ++ suffix)).
  rewrite find_cons, IH; [reflexivity|].
  change (u "```") with [96; 96; 96]%N. cbn -[N.eqb].
  destruct (N.eqb_spec 96 c); [congruence|reflexivity].
Qed.

Lemma lstrip_spaces ws s :
  Forall (fun c => is_space c = true) ws -> lstrip (ws ++ s) = lstrip s.
Proof. induction 1 as [|c ws Hc _ IH]; cbn; [reflexivity|now rewrite Hc]. Qed.

Lemma lstrip_shorter s : length (lstrip s) <= length s.
Proof.
  induction s as [|c s IH]; cbn; [lia|]. destruct (is_space c); cbn; lia.
Qed.

Lemma strip_padded ws1 ws2 block :
  Forall (fun c => is_space c = true) ws1 ->
  Forall (fun c => is_space c = true) ws2 ->
  block <> [] ->
  lstrip block = block -> lstrip (rev block) = rev block ->
  strip (ws1 ++ block ++ ws2) = block.
Proof.
  intros H1 H2 Hne Hl Hr. unfold strip, rstrip.
  rewrite lstrip_spaces by exact H1.
  assert (Hb : lstrip (block ++ ws2) = block ++ ws2).
  { destruct block as [|c b]; [congruence|]. cbn in *.
    destruct (is_space c); [|reflexivity].
    exfalso. pose proof (lstrip_shorter b) as H.
    rewrite Hl in H. cbn in H. lia. }
  rewrite Hb, rev_app_distr, lstrip_spaces, Hr, rev_involutive;
    [reflexivity|].
  apply Forall_rev. exact H2.
Qed.

Lemma space_not_backtick c : is_space c = true -> c <> 96%N.
Proof. intros H ->. discriminate H. Qed.

Lemma sample_block_no_backtick : Forall (fun c => c <> 96%N) sample_block.
Proof.
  apply Forall_forall. intros c Hc.
  assert (H : forallb (fun c => negb (c =? 96)%N) sample_block = true)
    by (vm_compute; reflexivity).
  rewrite forallb_forall in H. specialize (H c Hc).
  intros ->. discriminate H.
Qed.

(** C5: an answer whose first fenced block, padded or not with white
    space, is [{"内容概要": ["a","b"], "条款序号": "1.1", "条款原文": null}]
    is extracted to the summary ["a\nb"], the clause numbers ["1.1"],
    the marker ['未提取'] as clause text and an empty error, whatever
    text stands before the block (without an opening fence of its own)
    and after it. *)
Theorem fenced_block_extraction py prefix ws1 ws2 suffix :
  Re.find (u "```json") prefix = None ->
  Forall (fun c => is_space c = true) ws1 ->
  Forall (fun c => is_space c = true) ws2 ->
  extract_answer py
    (PStr (prefix ++ u "```json" ++ ws1 ++ sample_block ++ ws2
             ++ u "```" ++ suffix))
  = Ok (mkRowResult (u "a" ++ [LF] ++ u "b") (u "1.1") NOT_EXTRACTED []).
Proof.
  intros Hprefix H1 H2.
  unfold extract_answer, re_search, Re.search_json_block. cbn [bind].
  rewrite find_opening_fence by exact Hprefix.
  replace (ws1 ++ sample_block ++ ws2 ++ u "```" ++ suffix)
    with ((ws1 ++ sample_block ++ ws2) ++ u "```" ++ suffix)
    by (now rewrite <- !app_assoc).
  rewrite find_closing_fence.
  - rewrite strip_padded;
      [vm_compute; reflexivity | assumption | assumption | discriminate
      | reflexivity | reflexivity].
  - apply Forall_app. split.
    + eapply Forall_impl; [|exact H1]. apply space_not_backtick.
    + apply Forall_app. split; [apply sample_block_no_backtick|].
      eapply Forall_impl; [|exact H2]. apply space_not_backtick.
Qed.

Lemma fenced_block_extraction_witness :
  Re.find (u "```json") (u "Result: ") = None
  /\ extract_answer plain_builtins (PStr sample_answer)
     = Ok (mkRowResult (u "a" ++ [LF] ++ u "b") (u "1.1") NOT_EXTRACTED []).
Proof.
  split; [reflexivity|].
  apply (@fenced_block_extraction plain_builtins (u "Result: ") [LF] [LF]
           (u " done")).
  - reflexivity.
  - repeat constructor.
  - repeat constructor.
Defined.

(** ** C7: the request body *)

(** C7, as stated, fails in two ways.  The query is serialized with
    [indent=4]: for the cells ["A"] and ["B"] it is a text of three
    lines with indented members, not the compact one-line form.  And a
    row with a single cell has no guidance cell: building the request
    raises. *)
Lemma query_not_compact_counterexample :
  build_payload [PStr (u "A"); PStr (u "B")] (u "text")
  = Ok (envelope (indented_query (Dumps.encode_basestring (u "A"))
                    (Dumps.encode_basestring (u "B"))) (u "text"))
  /\ indented_query (Dumps.encode_basestring (u "A"))
       (Dumps.encode_basestring (u "B"))
     <> compact_query (Dumps.encode_basestring (u "A"))
          (Dumps.encode_basestring (u "B"))
  /\ In LF (indented_query (Dumps.encode_basestring (u "A"))
              (Dumps.encode_basestring (u "B")))
  /\ build_payload [PStr (u "A")] (u "text")
     = Raise (mkExn "IndexError" (u "tuple index out of range")).
Proof.
  split; [vm_compute; reflexivity|]. split; [vm_compute; discriminate|].
  split; [vm_compute; tauto|reflexivity].
Qed.

(** C7 (amended): for every row with at least two cells whose first
    two cells serialize to JSON, and every document text, the request
    body is the envelope with exactly the fields [response_mode]
    (["blocking"]), [user] (["haha-partner"]) and [inputs], the latter
    with the query string under [Query] and the unmodified text under
    [File]; the query string is the object with exactly the clause
    label and the clause guidance, serialized over three lines with
    four-space indentation; and the body depends on nothing but the
    first two cells and the text. *)
Theorem build_payload_envelope c0 c1 rest file_text s0 s1 :
  Dumps.encode 1 c0 = Ok s0 ->
  Dumps.encode 1 c1 = Ok s1 ->
  build_payload (c0 :: c1 :: rest) file_text
  = Ok (envelope (indented_query s0 s1) file_text)
  /\ forall rest', build_payload (c0 :: c1 :: rest') file_text
                   = build_payload (c0 :: c1 :: rest) file_text.
Proof.
  intros H0 H1. split; [|reflexivity].
  unfold build_payload, Dumps.dumps. cbn [tuple_getitem nth_error bind].
  cbn [Dumps.encode Dumps.map_result fst snd]. rewrite H0, H1.
  cbn [bind]. unfold envelope, indented_query.
  do 3 f_equal. vm_compute Dumps.newline_indent.
  change (Dumps.encode_basestring (u "条款"))
    with ([DQUOTE] ++ u "条款" ++ [DQUOTE]).
  change (Dumps.encode_basestring (u "内容概要填写说明和提示"))
    with ([DQUOTE] ++ u "内容概要填写说明和提示" ++ [DQUOTE]).
  cbn [join]. repeat rewrite <- app_assoc. reflexivity.
Qed.

Lemma build_payload_envelope_witness :
  build_payload sample_row (u "text")
  = Ok (envelope (indented_query (Dumps.encode_basestring (u "1.1"))
                    (Dumps.encode_basestring (u "guidance"))) (u "text")).
Proof.
  apply (@build_payload_envelope (PStr (u "1.1")) (PStr (u "guidance"))
           [PNone; PNone; PNone] (u "text")); reflexivity.
Defined.

(** ** C6: the text of a document *)

(** *** Occurrences *)

Lemma find_none_no_occurrence pat s :
  Re.find pat s = None -> forall a b, s <> a ++ pat ++ b.
Proof.
  intros H a. revert s H. induction a as [|x a IH]; intros s H b ->.
  - cbn [app] in H. rewrite find_here in H. discriminate.
  - rewrite find_unfold in H.
    destruct (starts_with pat ((x :: a) ++ pat ++ b)); [discriminate|].
    cbn [app] in H.
    destruct (Re.find pat (a ++ pat ++ b)) as [[? ?]|] eqn:E; [discriminate|].
    exact (IH _ E b eq_refl).
Qed.

Lemma find_none_cons pat c s :
  starts_with pat (c :: s) = false -> Re.find pat s = None ->
  Re.find pat (c :: s) = None.
Proof. intros H1 H2. now rewrite find_cons, H2. Qed.

Lemma find_none_inv pat c s :
  Re.find pat (c :: s) = None ->
  starts_with pat (c :: s) = false /\ Re.find pat s = None.
Proof.
  rewrite find_unfold. destruct (starts_with pat (c :: s)); [discriminate|].
  destruct (Re.find pat s) as [[? ?]|]; [discriminate|]. now split.
Qed.

Section Runs.
Variable cls : N -> bool.

(** A pattern made of [cls] characters cannot match across a
    character outside [cls]. *)
Lemma starts_with_before pat c : forall l rest,
  Forall (fun a => cls a = true) pat -> cls c = false ->
  starts_with pat (l ++ c :: rest) = true -> starts_with pat l = true.
Proof.
  induction pat as [|a p IH]; intros l rest Hp Hc H; [reflexivity|].
  inversion Hp as [|? ? Ha Hp']; subst.
  destruct l as [|y l]; cbn in H |- *.
  - apply andb_prop in H. destruct H as [H _].
    apply N.eqb_eq in H. subst. congruence.
  - apply andb_prop in H. destruct H as [H1 H2].
    rewrite H1. cbn. eapply IH; eauto.
Qed.

Lemma find_none_split pat c : forall l rest,
  pat <> [] -> Forall (fun a => cls a = true) pat -> cls c = false ->
  Re.find pat l = None -> Re.find pat rest = None ->
  Re.find pat (l ++ c :: rest) = None.
Proof.
  intros l rest Hne Hp Hc. induction l as [|x l IH]; intros Hl Hr.
  - cbn [app]. apply find_none_cons; [|exact Hr].
    destruct (starts_with pat (c :: rest)) eqn:E; [|reflexivity].
    apply (starts_with_before [] rest Hp Hc) in E.
    destruct pat; [congruence|discriminate].
  - apply find_none_inv in Hl. destruct Hl as [Hs Hl].
    change ((x :: l) ++ c :: rest) with (x :: (l ++ c :: rest)).
    apply find_none_cons; [|now apply IH].
    destruct (starts_with pat (x :: l ++ c :: rest)) eqn:E; [|reflexivity].
    apply (starts_with_before (x :: l) rest Hp Hc) in E. congruence.
Qed.

Variable min : nat.
Variable repl : pystr.

(** Reading on after a character outside the class. *)
Lemma sub_runs_app c : forall a pending b,
  cls c = false ->
  Re.sub_runs cls min repl pending (a ++ c :: b)
  = Re.sub_runs cls min repl pending a ++ c :: Re.sub_runs cls min repl [] b.
Proof.
  induction a as [|x a IH]; intros pending b Hc; cbn.
  - now rewrite Hc.
  - destruct (cls x).
    + now apply IH.
    + rewrite <- app_assoc. cbn. now rewrite IH.
Qed.

Lemma sub_app c a b :
  cls c = false ->
  Re.sub cls min repl (a ++ c :: b)
  = Re.sub cls min repl a ++ c :: Re.sub cls min repl b.
Proof. apply sub_runs_app. Qed.

(** The substitution goes through the lines of a text when the line
    break is outside the class. *)
Lemma sub_join lines :
  cls LF = false -> 1 <= min ->
  Re.sub cls min repl (join [LF] lines)
  = join [LF] (map (Re.sub cls min repl) lines).
Proof.
  intros Hc Hmin. induction lines as [|p [|q lines] IH].
  - cbn. unfold Re.flush. destruct min; [lia|reflexivity].
  - reflexivity.
  - change (join [LF] (p :: q :: lines))
      with (p ++ LF :: join [LF] (q :: lines)).
    rewrite sub_app, IH by exact Hc. reflexivity.
Qed.

(** Characters of the result: those of the replacement and those of
    the text. *)
Lemma sub_runs_in c : forall s pending,
  In c (Re.sub_runs cls min repl pending s) ->
  In c repl \/ In c pending \/ In c s.
Proof.
  assert (Hflush : forall pending,
             In c (Re.flush min repl pending) -> In c repl \/ In c pending).
  { intros pending. unfold Re.flush.
    destruct (min <=? length pending)%nat; tauto. }
  induction s as [|x s IH]; intros pending H; cbn [Re.sub_runs] in H.
  - apply Hflush in H. tauto.
  - destruct (cls x).
    + apply IH in H. rewrite in_app_iff in H. cbn [In] in *. tauto.
    + rewrite in_app_iff in H. cbn [In] in H.
      destruct H as [H|[H|H]].
      * apply Hflush in H. tauto.
      * cbn [In]. tauto.
      * apply IH in H. cbn [In] in *. tauto.
Qed.

Lemma sub_in c s :
  In c (Re.sub cls min repl s) -> In c repl \/ In c s.
Proof.
  intros H. apply sub_runs_in in H. destruct H as [H|[[]|H]]; auto.
Qed.

(** A text that is not empty stays so when the replacement is not
    empty. *)
Lemma sub_runs_nonempty : forall s pending,
  repl <> [] -> pending <> [] \/ s <> [] ->
  Re.sub_runs cls min repl pending s <> [].
Proof.
  induction s as [|x s IH]; intros pending Hr H; cbn.
  - destruct H as [H|H]; [|congruence].
    unfold Re.flush. destruct (min <=? length pending)%nat; assumption.
  - destruct (cls x).
    + apply IH; [exact Hr|]. left. now destruct pending.
    + intros E. apply app_eq_nil in E. destruct E as [_ E]. discriminate.
Qed.

End Runs.

Lemma starts_with_length pat : forall s,
  starts_with pat s = true -> length pat <= length s.
Proof.
  induction pat as [|a p IH]; intros [|b s] H; cbn in *; try lia;
    try discriminate.
  apply andb_prop in H. destruct H as [_ H]. apply IH in H. lia.
Qed.

Lemma find_short pat : forall s, length s < length pat -> Re.find pat s = None.
Proof.
  induction s as [|c s IH]; intros H; rewrite find_unfold.
  - destruct (starts_with pat []) eqn:E; [|reflexivity].
    apply starts_with_length in E. lia.
  - destruct (starts_with pat (c :: s)) eqn:E.
    + apply starts_with_length in E. lia.
    + rewrite IH; [reflexivity|cbn in H; lia].
Qed.

(** With [min = 1] a character of the class never survives. *)
Lemma sub_once_in cls repl c : forall s pending,
  In c (Re.sub_runs cls 1 repl pending s) ->
  In c repl \/ (In c s /\ cls c = false).
Proof.
  assert (Hflush : forall pending,
             In c (Re.flush 1 repl pending) -> In c repl).
  { intros [|x pending]; cbn; tauto. }
  induction s as [|x s IH]; intros pending H; cbn [Re.sub_runs] in H.
  - left. eapply Hflush; eauto.
  - destruct (cls x) eqn:Ex.
    + apply IH in H. cbn [In]. tauto.
    + rewrite in_app_iff in H. cbn [In] in H. destruct H as [H|[H|H]].
      * left. eapply Hflush; eauto.
      * subst. cbn [In]. tauto.
      * apply IH in H. cbn [In]. tauto.
Qed.

Lemma lstrip_in c s : In c (lstrip s) -> In c s.
Proof.
  induction s as [|x s IH]; cbn; [tauto|].
  destruct (is_space x); cbn; tauto.
Qed.

Lemma strip_in c s : In c (strip s) -> In c s.
Proof.
  unfold strip, rstrip. intros H.
  apply in_rev in H. apply lstrip_in in H. apply in_rev in H.
  now apply lstrip_in.
Qed.

(** *** Lines *)

Lemma clean_paragraph_printable text :
  Forall printable (clean_paragraph text).
Proof.
  apply Forall_forall. intros c H. unfold clean_paragraph in H.
  apply strip_in in H. apply sub_once_in in H.
  destruct H as [[<-|[]]|[_ H]]; [split; [discriminate|reflexivity]|].
  unfold is_blank in H. apply orb_false_elim in H. destruct H as [H _].
  apply orb_false_elim in H. destruct H as [H _].
  apply N.leb_gt in H. split; [|exact H].
  intros ->. discriminate H.
Qed.

Lemma cleaned_paragraphs_lines paragraphs :
  Forall (fun p => p <> [] /\ Forall printable p) (cleaned_paragraphs paragraphs).
Proof.
  induction paragraphs as [|para rest IH]; cbn; [constructor|].
  pose proof (clean_paragraph_printable para) as H.
  destruct (clean_paragraph para) as [|c p] eqn:E; [exact IH|].
  constructor; [|exact IH]. split; [discriminate|exact H].
Qed.


Lemma sub_period_no_dots : forall s pending,
  Forall (fun c => is_period c = true) pending ->
  Re.find dots (Re.sub_runs is_period 4 [SPACE] pending s) = None.
Proof.
  assert (Hflush : forall pending,
             Re.find dots (Re.flush 4 [SPACE] pending) = None).
  { intros pending. unfold Re.flush.
    destruct (4 <=? length pending)%nat eqn:E; [reflexivity|].
    apply find_short. apply Nat.leb_gt in E. exact E. }
  induction s as [|x s IH]; intros pending Hp; cbn [Re.sub_runs].
  - apply Hflush.
  - destruct (is_period x) eqn:Ex.
    + apply IH. apply Forall_app. split; [exact Hp|].
      now constructor.
    + apply (@find_none_split is_period); try assumption.
      * discriminate.
      * repeat constructor.
      * apply Hflush.
      * apply IH. constructor.
Qed.

Lemma sub_period_line p :
  p <> [] -> Forall printable p -> line (Re.sub is_period 4 [SPACE] p).
Proof.
  intros Hne Hp. split; [|split].
  - apply sub_runs_nonempty; [discriminate|now right].
  - apply Forall_forall. intros c H. apply sub_in in H.
    destruct H as [[<-|[]]|H]; [split; [discriminate|reflexivity]|].
    rewrite Forall_forall in Hp. now apply Hp.
  - apply sub_period_no_dots. constructor.
Qed.

Lemma lines_of_paragraphs paragraphs :
  Forall line (map (Re.sub is_period 4 [SPACE]) (cleaned_paragraphs paragraphs)).
Proof.
  pose proof (cleaned_paragraphs_lines paragraphs) as H.
  induction H as [|p ps [Hne Hp] _ IH]; cbn; constructor; auto.
  now apply sub_period_line.
Qed.

(** *** The joined text *)

Lemma join_cons2 sep p q rest :
  join sep (p :: q :: rest) = p ++ sep ++ join sep (q :: rest).
Proof. reflexivity. Qed.


(** The joined text of lines that are not empty begins with the first
    character of the first line. *)
Lemma join_lines_head lines :
  Forall line lines -> lines <> [] ->
  exists c rest, join [LF] lines = c :: rest /\ c <> LF.
Proof.
  intros H Hne. destruct H as [|q lines (Hq & Hp & _) _]; [congruence|].
  destruct q as [|c q]; [congruence|].
  inversion Hp as [|? ? [Hc _] _]; subst.
  destruct lines; cbn; eauto.
Qed.






Lemma sub_newline_skip_line repl q rest :
  Forall printable q ->
  Re.sub is_newline 3 repl (q ++ rest) = q ++ Re.sub is_newline 3 repl rest.
Proof.
  induction 1 as [|c q [Hc _] _ IH]; [reflexivity|].
  unfold Re.sub in *. cbn [app Re.sub_runs].
  unfold is_newline at 1. destruct (N.eqb_spec c LF); [congruence|].
  cbn [Re.flush length Nat.leb app]. now rewrite IH.
Qed.

(** The compression of blank lines finds nothing to compress. *)
Lemma sub_newline_lines repl lines :
  Forall line lines ->
  Re.sub is_newline 3 repl (join [LF] lines) = join [LF] lines.
Proof.
  induction 1 as [|q lines Hq Hl IH]; [reflexivity|].
  destruct lines as [|q' lines].
  - cbn [join]. rewrite <- (app_nil_r q) at 1.
    rewrite sub_newline_skip_line by apply Hq. cbn. now rewrite app_nil_r.
  - rewrite join_cons2, sub_newline_skip_line by apply Hq. f_equal.
    destruct (join_lines_head Hl) as (c & rest & E & Hc); [discriminate|].
    rewrite E in IH |- *. cbn [app].
    unfold Re.sub in *. cbn [Re.sub_runs] in IH |- *.
    change (is_newline LF) with true. cbn [app]. cbn [Re.sub_runs].
    unfold is_newline at 1. unfold is_newline at 1 in IH.
    destruct (N.eqb_spec c LF); [congruence|].
    cbn [Re.flush length Nat.leb app] in IH |- *. now rewrite IH.
Qed.

(** The text [read_word_file] returns: the cleaned paragraphs that are
    not empty, each without its dot leaders, one per line. *)
Lemma normalize_text_lines paragraphs :
  normalize_text paragraphs
  = join [LF] (map (Re.sub is_period 4 [SPACE]) (cleaned_paragraphs paragraphs)).
Proof.
  unfold normalize_text.
  rewrite sub_join by (reflexivity || lia).
  apply sub_newline_lines. apply lines_of_paragraphs.
Qed.





(** * Further properties of the script *)

(** ** The cost of a run *)

Lemma sends_at_most_refl n st : sends_at_most n st st.
Proof. exists []. rewrite app_nil_r. split; [reflexivity|cbn; lia]. Qed.

Lemma sends_at_most_trans n m st1 st2 st3 :
  sends_at_most n st1 st2 -> sends_at_most m st2 st3 ->
  sends_at_most (n + m) st1 st3.
Proof.
  intros (c1 & H1 & L1) (c2 & H2 & L2). exists (c1 ++ c2).
  rewrite H2, H1, app_assoc, length_app. split; [reflexivity|lia].
Qed.

Lemma sends_at_most_weaken n m st st' :
  sends_at_most n st st' -> n <= m -> sends_at_most m st st'.
Proof. intros (c & H & L) Hle. exists c. split; [exact H|lia]. Qed.

Lemma sends_at_most_logged st lv msg : sends_at_most 0 st (logged st lv msg).
Proof. exists []. cbn. now rewrite app_nil_r. Qed.

Lemma sends_at_most_sent st req : sends_at_most 1 st (sent st req).
Proof. exists [req]. cbn. split; [reflexivity|lia]. Qed.

Section Cost.
Variable py : Builtins.
Variable env : Env.

Lemma row_attempt_sends r ft a t st :
  sends_at_most 1 st (snd (row_attempt py env r ft a t st)).
Proof.
  rewrite row_attempt_steps.
  destruct (build_payload r ft); [|apply sends_at_most_refl].
  cbn zeta. destruct (http_post env _ _); [|apply sends_at_most_sent].
  destruct (raise_for_status _); apply sends_at_most_sent.
Qed.

Lemma process_excel_row_sends r ft a t st :
  sends_at_most 1 st (snd (process_excel_row py env r ft a t st)).
Proof.
  pose proof (row_attempt_sends r ft a t st) as H.
  destruct r as [|c0 rest].
  - unfold process_excel_row, try_except.
    destruct (row_attempt py env [] ft a t st) as [[res|e] st']; exact H.
  - rewrite process_excel_row_steps.
    destruct (row_attempt py env (c0 :: rest) ft a t st) as [[res|e] st'];
      [exact H|].
    apply (sends_at_most_trans H (sends_at_most_logged _ _ _)).
Qed.

Lemma row_step_sends config ft new_ws idx r st :
  sends_at_most 1 st (snd (row_step py env config ft new_ws idx r st)).
Proof.
  unfold row_step, try_except, mbind, lift, ret, config_getitem.
  destruct (api_url config) as [a|];
    [|eapply sends_at_most_weaken; [apply sends_at_most_logged|lia]].
  destruct (auth_token config) as [t|];
    [|eapply sends_at_most_weaken; [apply sends_at_most_logged|lia]].
  pose proof (process_excel_row_sends r ft a t st) as H.
  destruct (process_excel_row py env r ft a t st) as [[res|e] st1].
  - destruct (build_new_row r res); [exact H|].
    apply (sends_at_most_trans H (sends_at_most_logged _ _ _)).
  - apply (sends_at_most_trans H (sends_at_most_logged _ _ _)).
Qed.

Lemma rows_loop_sends config ft data : forall new_ws idx st,
  sends_at_most (length data) st
    (snd (rows_loop py env config ft new_ws idx data st)).
Proof.
  induction data as [|r data IH]; intros new_ws idx st;
    [apply sends_at_most_refl|].
  cbn [rows_loop length]. unfold mbind at 1.
  pose proof (row_step_sends config ft new_ws idx r st) as H.
  destruct (row_step py env config ft new_ws idx r st) as [[ws1|e] st1].
  - apply (sends_at_most_trans H (IH _ _ _)).
  - eapply sends_at_most_weaken; [exact H|lia].
Qed.

Lemma document_step_sends config headers rows word_path st :
  sends_at_most (length (tl rows)) st
    (snd (document_step py env config headers rows word_path st)).
Proof.
  unfold document_step, try_except. unfold mbind at 1.
  rewrite read_word_file_steps.
  destruct (docx_paragraphs env word_path) as [paragraphs|e].
  - set (st0 := logged st INFO (u "成功读取Word文件: " ++ word_path)).
    unfold mbind at 1.
    pose proof (rows_loop_sends config (normalize_text paragraphs) (tl rows)
                  [headers] 1 st0) as H.
    assert (H0 : sends_at_most (length (tl rows)) st
                   (snd (rows_loop py env config (normalize_text paragraphs)
                           [headers] 1 (tl rows) st0))).
    { apply (sends_at_most_trans (sends_at_most_logged st INFO _) H). }
    destruct (rows_loop py env config (normalize_text paragraphs) [headers] 1
                (tl rows) st0) as [[ws|e] st1]; cbn [snd] in H0.
    + unfold mbind, lift, save, logger.
      destruct (result_path env word_path) as [out|e].
      * destruct (save_workbook env out ws) as [[]|e];
          destruct H0 as (c & Hc & Lc); exists c; cbn; auto.
      * destruct H0 as (c & Hc & Lc); exists c; cbn; auto.
    + destruct H0 as (c & Hc & Lc); exists c; cbn; auto.
  - exists []. cbn. rewrite app_nil_r. split; [reflexivity|lia].
Qed.

Lemma documents_loop_sends config headers rows paths : forall st,
  sends_at_most (length paths * length (tl rows)) st
    (snd (documents_loop py env config headers rows paths st)).
Proof.
  induction paths as [|p paths IH]; intros st; [apply sends_at_most_refl|].
  cbn [documents_loop length Nat.mul]. unfold mbind.
  pose proof (document_step_sends config headers rows p st) as H.
  destruct (document_step py env config headers rows p st) as [[[]|e] st1].
  - apply (sends_at_most_trans H (IH st1)).
  - eapply sends_at_most_weaken; [exact H|lia].
Qed.

End Cost.

(** X1: a run sends at most one request for each pair of a document
    and a data row of the checklist: when the checklist has the rows
    [rows], [process_documents] sends at most
    [len(word_paths) * (len(rows) - 1)] requests, whatever fails. *)
Theorem request_budget py env config rows st :
  load_rows env (excel_path config) = Ok rows ->
  sends_at_most (length (word_paths config) * (length rows - 1)) st
    (snd (process_documents py env config st)).
Proof.
  intros Hrows. rewrite process_documents_steps.
  unfold read_checklist. rewrite Hrows. cbn [bind].
  destruct rows as [|header data]; cbn [make_headers bind].
  - eapply sends_at_most_weaken; [apply sends_at_most_logged|apply Nat.le_0_l].
  - replace (length (header :: data) - 1) with (length (tl (header :: data)))
      by (cbn; lia).
    apply documents_loop_sends.
Qed.

Lemma request_budget_witness :
  sends_at_most 2 initial
    (snd (process_documents plain_builtins two_row_env
            (mkConfig [u "contract.docx"] (u "checklist.xlsx")
               (Some sample_url) (Some sample_token)) initial)).
Proof.
  exact (@request_budget plain_builtins two_row_env
           (mkConfig [u "contract.docx"] (u "checklist.xlsx")
              (Some sample_url) (Some sample_token))
           _ initial eq_refl).
Defined.

(** ** Files *)

Section Files.
Variable py : Builtins.
Variable env : Env.

Lemma row_attempt_files r ft a t st :
  files (snd (row_attempt py env r ft a t st)) = files st.
Proof.
  rewrite row_attempt_steps.
  destruct (build_payload r ft); [|reflexivity].
  cbn zeta. destruct (http_post env _ _); [|reflexivity].
  destruct (raise_for_status _); reflexivity.
Qed.

Lemma process_excel_row_files r ft a t st :
  files (snd (process_excel_row py env r ft a t st)) = files st.
Proof.
  pose proof (row_attempt_files r ft a t st) as H.
  destruct r as [|c0 rest].
  - unfold process_excel_row, try_except.
    destruct (row_attempt py env [] ft a t st) as [[res|e] st']; exact H.
  - rewrite process_excel_row_steps.
    destruct (row_attempt py env (c0 :: rest) ft a t st) as [[res|e] st'];
      exact H.
Qed.




End Files.


(** X3: a document that cannot be read costs nothing: its turn sends
    no request and writes no file; it leaves two ERROR records, the one
    of [read_word_file] and the one of the loop, and the loop goes on. *)
Theorem unreadable_document_costs_nothing py env config headers rows word_path
  e st :
  docx_paragraphs env word_path = Raise e ->
  document_step py env config headers rows word_path st
  = (Ok tt,
     mkState (calls st)
       (log st
          ++ [(ERROR, u "读取Word文件失败: " ++ word_path ++ u " - " ++ exn_str e);
              (ERROR, u "处理文件失败: " ++ word_path ++ u " - " ++ exn_str e)])
       (files st)).
Proof.
  intros H. unfold document_step, try_except. unfold mbind at 1.
  rewrite read_word_file_steps, H. unfold logger, logged. cbn.
  now rewrite <- app_assoc.
Qed.

Lemma unreadable_document_costs_nothing_witness :
  snd (document_step plain_builtins offline_env sample_config
         [PStr (u "h"); PStr (u "error")] [[PStr (u "h")]]
         (u "contract.docx") initial)
  = mkState []
      [(ERROR, u "读取Word文件失败: contract.docx - contract.docx");
       (ERROR, u "处理文件失败: contract.docx - contract.docx")] [].
Proof.
  rewrite (@unreadable_document_costs_nothing plain_builtins offline_env
             sample_config [PStr (u "h"); PStr (u "error")] [[PStr (u "h")]]
             (u "contract.docx")
             (mkExn "PackageNotFoundError" (u "contract.docx")) initial eq_refl).
  reflexivity.
Defined.

(** ** Rows that cannot be processed *)

(** X4: when the configuration has no [api_url], or no [auth_token],
    the row loop sends no request at all: every data row is written
    unchanged with the text of the [KeyError] as final cell, that is
    the quoted name of the first missing key, and the loop does not
    raise. *)
Theorem missing_endpoint_rows py env config file_text data :
  forall new_ws idx st,
  api_url config = None \/ auth_token config = None ->
  let key := match api_url config with
             | None => u "api_url"
             | Some _ => u "auth_token"
             end in
  exists st',
    rows_loop py env config file_text new_ws idx data st
    = (Ok (new_ws
             ++ map (fun r => r ++ [PStr (u "'" ++ key ++ u "'")]) data), st')
    /\ calls st' = calls st
    /\ files st' = files st.
Proof.
  intros new_ws idx st Hmissing key.
  assert (Hstep : forall ws i r s,
             row_step py env config file_text ws i r s
             = (Ok (ws ++ [r ++ [PStr (u "'" ++ key ++ u "'")]]),
                logged s ERROR
                  (u "第" ++ str_of_N (N.of_nat i) ++ u "行处理异常: "
                     ++ u "'" ++ key ++ u "'"))).
  { intros ws i r s. subst key.
    unfold row_step, try_except, mbind, lift, ret, logger, config_getitem.
    destruct (api_url config) as [a|]; [|reflexivity].
    destruct Hmissing as [Ha|Ht]; [discriminate|]. rewrite Ht. reflexivity. }
  clearbody key. clear Hmissing.
  revert new_ws idx st. induction data as [|r data IH]; intros new_ws idx st.
  - exists st. cbn. rewrite app_nil_r. auto.
  - cbn [rows_loop map]. unfold mbind at 1. rewrite Hstep.
    destruct (IH (new_ws ++ [r ++ [PStr (u "'" ++ key ++ u "'")]]) (S idx)
                (logged st ERROR
                   (u "第" ++ str_of_N (N.of_nat idx) ++ u "行处理异常: "
                      ++ u "'" ++ key ++ u "'")))
      as (st' & Hloop & Hc & Hf).
    exists st'. rewrite Hloop, <- app_assoc. cbn in *. auto.
Qed.

Lemma missing_endpoint_rows_witness :
  exists st',
    rows_loop plain_builtins (answering_env 200)
      (mkConfig [] [] None (Some sample_token)) (u "text") [] 1
      [sample_row] initial
    = (Ok [sample_row ++ [PStr (u "'api_url'")]], st')
    /\ calls st' = [].
Proof.
  destruct (@missing_endpoint_rows plain_builtins (answering_env 200)
              (mkConfig [] [] None (Some sample_token)) (u "text")
              [sample_row] [] 1 initial (or_introl eq_refl))
    as (st' & Hloop & Hcalls & _).
  exists st'. split; [exact Hloop|exact Hcalls].
Defined.

(** X5: for a data row with one, two or three cells (and a
    configuration that names endpoint and token) the request is made
    and then its result is thrown away: the assignment to the content
    cells raises, and the row is written unchanged with the text of
    that [IndexError] as final cell, whatever the service answered. *)
Theorem short_row_discards_result py env config file_text new_ws idx r a t st :
  r <> [] -> length r < 4 ->
  api_url config = Some a -> auth_token config = Some t ->
  exists res st1,
    process_excel_row py env r file_text a t st = (Ok res, st1)
    /\ row_step py env config file_text new_ws idx r st
       = (Ok (new_ws
                ++ [r ++ [PStr (u "list assignment index out of range")]]),
          logged st1 ERROR
            (u "第" ++ str_of_N (N.of_nat idx) ++ u "行处理异常: "
               ++ u "list assignment index out of range")).
Proof.
  intros Hne Hlen Ha Ht.
  destruct r as [|c0 rest]; [congruence|].
  assert (Hrow : exists res st1,
             process_excel_row py env (c0 :: rest) file_text a t st
             = (Ok res, st1)).
  { rewrite process_excel_row_steps.
    destruct (row_attempt py env (c0 :: rest) file_text a t st)
      as [[res|e] st']; eauto. }
  destruct Hrow as (res & st1 & Hrow). exists res, st1.
  split; [exact Hrow|].
  unfold row_step, try_except, mbind, lift, ret, logger, config_getitem.
  rewrite Ha, Ht, Hrow, build_new_row_short by exact Hlen. reflexivity.
Qed.

Lemma short_row_discards_result_witness :
  fst (row_step plain_builtins (answering_env 200) sample_config (u "text")
         [] 1 [PStr (u "C"); PStr (u "D"); PNone] initial)
  = Ok [[PStr (u "C"); PStr (u "D"); PNone;
         PStr (u "list assignment index out of range")]].
Proof.
  destruct (@short_row_discards_result plain_builtins (answering_env 200)
              sample_config (u "text") [] 1
              [PStr (u "C"); PStr (u "D"); PNone] sample_url sample_token
              initial)
    as (res & st1 & _ & Hstep);
    [discriminate | cbn; lia | reflexivity | reflexivity |].
  rewrite Hstep. reflexivity.
Defined.

(** ** What a row leaves behind *)

(** X6: [process_excel_row] on a row with a first cell never touches
    the files and writes at most one log record: nothing when the
    extraction succeeds, and when it fails exactly one ERROR record
    that names the first cell and repeats the error text put in the
    result. *)
Theorem row_log_record py env c0 rest file_text a t st :
  exists res st',
    process_excel_row py env (c0 :: rest) file_text a t st = (Ok res, st')
    /\ files st' = files st
    /\ ((fst (row_attempt py env (c0 :: rest) file_text a t st) = Ok res
         /\ log st' = log st)
        \/ (res = mkRowResult FAILED FAILED FAILED (error res)
            /\ log st' = log st
                 ++ [(ERROR, u "处理行失败: " ++ py_str py c0 ++ u " - "
                               ++ error res)])).
Proof.
  pose proof (process_excel_row_files py env (c0 :: rest) file_text a t st)
    as Hf.
  pose proof (row_attempt_steps py env (c0 :: rest) file_text a t st) as Hl.
  rewrite process_excel_row_steps in Hf |- *.
  destruct (row_attempt py env (c0 :: rest) file_text a t st)
    as [[res|e] st1] eqn:E; cbn [snd] in Hf.
  - exists res, st1. split; [reflexivity|]. split; [exact Hf|]. left.
    split; [reflexivity|].
    destruct (build_payload (c0 :: rest) file_text); [|inversion Hl; auto].
    cbn zeta in Hl. destruct (http_post env _ _); [|inversion Hl; auto].
    destruct (raise_for_status _); inversion Hl; reflexivity.
  - eexists _, _. split; [reflexivity|]. split; [exact Hf|]. right.
    split; [reflexivity|]. cbn.
    replace (log st1) with (log st); [reflexivity|].
    destruct (build_payload (c0 :: rest) file_text); [|inversion Hl; auto].
    cbn zeta in Hl. destruct (http_post env _ _); [|inversion Hl; auto].
    destruct (raise_for_status _); inversion Hl; reflexivity.
Qed.

(** X7: the cells of a row beyond the first two have no influence:
    two rows with the same label and guidance cells give the same
    request, the same result and the same log, whatever their other
    cells hold. *)
Theorem other_cells_ignored py env c0 c1 rest rest' file_text a t st :
  process_excel_row py env (c0 :: c1 :: rest) file_text a t st
  = process_excel_row py env (c0 :: c1 :: rest') file_text a t st.
Proof.
  rewrite !process_excel_row_steps, !row_attempt_steps. reflexivity.
Qed.

(** ** More on the text of a document *)

Lemma starts_with_split needle : forall s,
  starts_with needle s = true -> s = needle ++ skipn (length needle) s.
Proof.
  induction needle as [|a p IH]; intros [|b s] H; cbn in *;
    try reflexivity; try discriminate.
  apply andb_prop in H. destruct H as [Hab H].
  apply N.eqb_eq in Hab. subst. f_equal. now apply IH.
Qed.

(** [Re.find] gives an occurrence, and the first one. *)
Lemma find_some needle : forall s a b,
  Re.find needle s = Some (a, b) -> s = a ++ needle ++ b.
Proof.
  induction s as [|c s IH]; intros a b H; rewrite find_unfold in H.
  - destruct (starts_with needle []) eqn:E; [|discriminate].
    inversion H; subst. now apply starts_with_split.
  - destruct (starts_with needle (c :: s)) eqn:E.
    + inversion H; subst. now apply starts_with_split.
    + destruct (Re.find needle s) as [[a0 b0]|] eqn:E0; [|discriminate].
      inversion H; subst. cbn. f_equal. now apply IH.
Qed.

Lemma find_first needle : forall s a b,
  Re.find needle s = Some (a, b) ->
  forall a' b', s = a' ++ needle ++ b' -> length a <= length a'.
Proof.
  induction s as [|c s IH]; intros a b H a' b' Hs; rewrite find_unfold in H.
  - destruct (starts_with needle []); [|discriminate].
    inversion H; subst. cbn. lia.
  - destruct (starts_with needle (c :: s)) eqn:E.
    + inversion H; subst. cbn. lia.
    + destruct (Re.find needle s) as [[a0 b0]|] eqn:E0; [|discriminate].
      inversion H; subst a b0.
      destruct a' as [|c' a'].
      * cbn [app] in Hs. rewrite Hs, starts_with_self in E. discriminate.
      * cbn [app] in Hs. inversion Hs; subst.
        cbn [length]. apply le_n_S. eapply IH; eauto.
Qed.

Lemma no_occurrence_find_none pat s :
  (forall a b, s <> a ++ pat ++ b) -> Re.find pat s = None.
Proof.
  intros H. destruct (Re.find pat s) as [[a b]|] eqn:E; [|reflexivity].
  apply find_some in E. exfalso. eapply H; eauto.
Qed.

Lemma find_none_inside pat a m b :
  Re.find pat (a ++ m ++ b) = None -> Re.find pat m = None.
Proof.
  intros H. apply no_occurrence_find_none. intros x y ->.
  apply (find_none_no_occurrence _ H (a ++ x) (y ++ b)).
  now rewrite <- !app_assoc.
Qed.

Lemma lstrip_split s :
  exists ws, s = ws ++ lstrip s /\ Forall (fun c => is_space c = true) ws.
Proof.
  induction s as [|c s (ws & Hs & Hws)]; [exists []; auto|].
  cbn. destruct (is_space c) eqn:E.
  - exists (c :: ws). split; [cbn; congruence|now constructor].
  - exists []. auto.
Qed.

Lemma lstrip_head s c rest : lstrip s = c :: rest -> is_space c = false.
Proof.
  induction s as [|x s IH]; cbn; [discriminate|].
  destruct (is_space x) eqn:E; [exact IH|].
  intros H; inversion H; subst. exact E.
Qed.

Lemma lstrip_keeps_last x c :
  is_space c = false -> exists x', lstrip (x ++ [c]) = x' ++ [c].
Proof.
  intros Hc. induction x as [|y x (x' & IH)]; cbn.
  - rewrite Hc. now exists [].
  - destruct (is_space y); [now exists x'|]. now exists (y :: x).
Qed.

Lemma strip_split s : exists a b, s = a ++ strip s ++ b.
Proof.
  unfold strip, rstrip.
  destruct (lstrip_split s) as (a & Ha & _).
  destruct (lstrip_split (rev (lstrip s))) as (b & Hb & _).
  exists a, (rev b).
  rewrite <- rev_app_distr, <- Hb, rev_involutive. exact Ha.
Qed.

Lemma strip_ends s :
  (forall c rest, strip s = c :: rest -> is_space c = false)
  /\ (forall c rest, strip s = rest ++ [c] -> is_space c = false).
Proof.
  unfold strip, rstrip. split; intros c rest H.
  - destruct (lstrip s) as [|c0 l] eqn:El; [discriminate|].
    pose proof (lstrip_head _ El) as Hc0.
    cbn [rev] in H.
    destruct (@lstrip_keeps_last (rev l) c0 Hc0) as (x' & Hx).
    rewrite Hx, rev_app_distr in H. cbn in H. inversion H; subst. exact Hc0.
  - apply (f_equal (@rev N)) in H.
    rewrite rev_involutive, rev_app_distr in H. cbn in H.
    eapply lstrip_head; eauto.
Qed.

Lemma sub_blank_single_spaces : forall s pending,
  Re.find [SPACE; SPACE] (Re.sub_runs is_blank 1 [SPACE] pending s) = None.
Proof.
  assert (Hflush : forall pending,
             Re.find [SPACE; SPACE] (Re.flush 1 [SPACE] pending) = None).
  { intros [|x pending]; reflexivity. }
  induction s as [|x s IH]; intros pending; cbn [Re.sub_runs].
  - apply Hflush.
  - destruct (is_blank x) eqn:Ex; [apply IH|].
    apply (@find_none_split (fun c => (c =? SPACE)%N)).
    + discriminate.
    + repeat constructor.
    + destruct (N.eqb_spec x SPACE); [subst; discriminate|reflexivity].
    + apply Hflush.
    + apply IH.
Qed.

(** X8: a cleaned paragraph has its white space collapsed and trimmed:
    it neither begins nor ends with a white-space character, it never
    has two spaces in a row, and the only character of the class
    [[\x00-\x1F\u3000\s]] left in it is the plain space. *)
Theorem clean_paragraph_shape text :
  (forall c rest, clean_paragraph text = c :: rest -> is_space c = false)
  /\ (forall c rest, clean_paragraph text = rest ++ [c] -> is_space c = false)
  /\ (forall a b, clean_paragraph text <> a ++ [SPACE; SPACE] ++ b)
  /\ (forall c, In c (clean_paragraph text) -> is_blank c = true -> c = SPACE).
Proof.
  unfold clean_paragraph.
  destruct (strip_ends (Re.sub is_blank 1 [SPACE] text)) as [Hhead Hlast].
  split; [exact Hhead|]. split; [exact Hlast|]. split.
  - apply find_none_no_occurrence.
    destruct (strip_split (Re.sub is_blank 1 [SPACE] text)) as (a & b & Hs).
    apply (@find_none_inside _ a _ b). rewrite <- Hs.
    apply sub_blank_single_spaces.
  - intros c Hin Hc. apply strip_in in Hin. apply sub_once_in in Hin.
    destruct Hin as [[<-|[]]|[_ H]]; [reflexivity|congruence].
Qed.

Lemma join_lines_last lines :
  Forall line lines -> lines <> [] ->
  exists rest c, join [LF] lines = rest ++ [c] /\ c <> LF.
Proof.
  induction 1 as [|q lines (Hq & Hp & _) Hl IH]; intros Hne; [congruence|].
  destruct lines as [|q' lines].
  - cbn [join]. destruct (exists_last Hq) as (rest & c & ->).
    exists rest, c. split; [reflexivity|].
    rewrite Forall_forall in Hp. apply (Hp c). apply in_or_app. cbn. auto.
  - destruct IH as (rest & c & E & Hc); [discriminate|].
    exists (q ++ [LF] ++ rest), c. rewrite join_cons2, E.
    now rewrite <- !app_assoc.
Qed.

Lemma count_lf_printable q :
  Forall printable q -> count_occ N.eq_dec q LF = 0.
Proof.
  induction 1 as [|c q [Hc _] _ IH]; [reflexivity|].
  cbn [count_occ]. destruct (N.eq_dec c LF); [congruence|exact IH].
Qed.

Lemma count_lf_join lines :
  Forall line lines ->
  count_occ N.eq_dec (join [LF] lines) LF = pred (length lines).
Proof.
  induction 1 as [|q lines (_ & Hp & _) Hl IH]; [reflexivity|].
  destruct lines as [|q' lines].
  - cbn [join length pred]. now apply count_lf_printable.
  - rewrite join_cons2, !count_occ_app, count_lf_printable by exact Hp.
    rewrite IH. cbn. reflexivity.
Qed.

(** X9: every line of the text of a document is a paragraph: the text
    neither begins nor ends with a line break, and it has one line
    break less than there are paragraphs that are not empty once
    cleaned (none for a single paragraph or an empty document). *)
Theorem text_has_one_line_per_paragraph paragraphs :
  (forall rest, normalize_text paragraphs <> LF :: rest)
  /\ (forall rest, normalize_text paragraphs <> rest ++ [LF])
  /\ count_occ N.eq_dec (normalize_text paragraphs) LF
     = pred (length (cleaned_paragraphs paragraphs)).
Proof.
  pose proof (lines_of_paragraphs paragraphs) as Hlines.
  rewrite normalize_text_lines.
  assert (Hlen : length (map (Re.sub is_period 4 [SPACE])
                          (cleaned_paragraphs paragraphs))
                 = length (cleaned_paragraphs paragraphs))
    by apply length_map.
  rewrite <- Hlen. clear Hlen.
  generalize dependent (map (Re.sub is_period 4 [SPACE])
                          (cleaned_paragraphs paragraphs)).
  intros lines Hlines. split; [|split].
  - intros rest H. destruct lines as [|q more]; [discriminate|].
    destruct (join_lines_head Hlines) as (c & r & Hj & Hc); [discriminate|].
    rewrite Hj in H. inversion H. congruence.
  - intros rest H. destruct lines as [|q more].
    + destruct rest; discriminate.
    + destruct (join_lines_last Hlines) as (r & c & Hj & Hc); [discriminate|].
      rewrite Hj in H. apply app_inj_tail in H. destruct H as [_ H].
      congruence.
  - now apply count_lf_join.
Qed.

Lemma sub_runs_outside cls min repl : forall s,
  1 <= min -> Forall (fun c => cls c = false) s ->
  Re.sub cls min repl s = s.
Proof.
  intros s Hmin H. unfold Re.sub. induction H as [|c s Hc _ IH]; cbn.
  - unfold Re.flush. destruct min; [lia|reflexivity].
  - rewrite Hc, IH. unfold Re.flush. destruct min; [lia|reflexivity].
Qed.

Lemma strip_no_space s :
  Forall (fun c => is_space c = false) s -> strip s = s.
Proof.
  intros H.
  assert (Hl : forall l, Forall (fun c => is_space c = false) l -> lstrip l = l).
  { intros l Hf. destruct Hf as [|c l Hc _]; cbn; [reflexivity|now rewrite Hc]. }
  unfold strip, rstrip. rewrite (Hl s H), Hl, rev_involutive; [reflexivity|].
  now apply Forall_rev.
Qed.

Lemma not_blank_not_space c : is_blank c = false -> is_space c = false.
Proof. unfold is_blank. intros H. now apply orb_false_elim in H. Qed.

Lemma periods_start_with_dots p rest :
  Forall (fun c => is_period c = true) p -> 4 <= length p ->
  starts_with dots (p ++ rest) = true.
Proof.
  intros H Hlen.
  destruct p as [|c1 [|c2 [|c3 [|c4 p]]]]; cbn in Hlen; try lia.
  repeat match goal with
         | H : Forall _ (_ :: _) |- _ => inversion H; clear H; subst
         end.
  unfold is_period in *.
  repeat match goal with
         | H : (_ =? _)%N = true |- _ => apply N.eqb_eq in H; subst
         end.
  reflexivity.
Qed.

Lemma sub_period_unchanged : forall s pending,
  Forall (fun c => is_period c = true) pending ->
  Re.find dots (pending ++ s) = None ->
  Re.sub_runs is_period 4 [SPACE] pending s = pending ++ s.
Proof.
  assert (Hflush : forall pending rest,
             Forall (fun c => is_period c = true) pending ->
             Re.find dots (pending ++ rest) = None ->
             Re.flush 4 [SPACE] pending = pending).
  { intros pending rest Hp Hf. unfold Re.flush.
    destruct (Nat.leb_spec 4 (length pending)) as [Hlen|Hlen]; [|reflexivity].
    rewrite find_unfold, periods_start_with_dots in Hf by assumption.
    discriminate. }
  induction s as [|x s IH]; intros pending Hp Hf; cbn [Re.sub_runs].
  - rewrite app_nil_r. eapply Hflush; eauto.
  - destruct (is_period x) eqn:Ex.
    + rewrite IH.
      * now rewrite <- app_assoc.
      * apply Forall_app. split; [exact Hp|now constructor].
      * now rewrite <- app_assoc.
    + rewrite (Hflush pending (x :: s) Hp Hf). f_equal. f_equal.
      apply (IH []); [constructor|].
      apply (@find_none_inside dots (pending ++ [x]) s []).
      now rewrite app_nil_r, <- app_assoc.
Qed.

Lemma clean_paragraph_unchanged p :
  Forall (fun c => is_blank c = false) p -> clean_paragraph p = p.
Proof.
  intros H. unfold clean_paragraph.
  rewrite sub_runs_outside by (lia || exact H).
  apply strip_no_space. eapply Forall_impl; [|exact H].
  apply not_blank_not_space.
Qed.

(** X10: a document that is already clean is returned as it is: when
    no paragraph is empty, contains a control or white-space character
    of the class the cleaning replaces, or a run of four periods, the
    text is the paragraphs joined by line breaks. *)
Theorem clean_text_unchanged paragraphs :
  Forall already_clean paragraphs ->
  normalize_text paragraphs = join [LF] paragraphs.
Proof.
  intros H. rewrite normalize_text_lines. f_equal.
  induction H as [|p ps (Hne & Hb & Hd) _ IH]; [reflexivity|].
  cbn [cleaned_paragraphs]. rewrite (clean_paragraph_unchanged Hb).
  destruct p as [|c p]; [congruence|].
  cbn [map]. rewrite IH. f_equal.
  apply (@sub_period_unchanged (c :: p) []); [constructor|exact Hd].
Qed.

Lemma clean_text_unchanged_witness :
  normalize_text [u "第一条...甲方"; u "第二条"]
  = u "第一条...甲方" ++ [LF] ++ u "第二条".
Proof.
  rewrite (@clean_text_unchanged [u "第一条...甲方"; u "第二条"]).
  - reflexivity.
  - repeat constructor; discriminate.
Defined.

Lemma sub_runs_inside cls repl : forall s pending,
  Forall (fun c => cls c = true) s ->
  Re.sub_runs cls 1 repl pending s = Re.flush 1 repl (pending ++ s).
Proof.
  induction s as [|c s IH]; intros pending H; cbn [Re.sub_runs].
  - now rewrite app_nil_r.
  - inversion H as [|? ? Hc Hs]; subst. rewrite Hc, IH by exact Hs.
    now rewrite <- app_assoc.
Qed.

Lemma clean_paragraph_blank p :
  Forall (fun c => is_blank c = true) p -> clean_paragraph p = [].
Proof.
  intros H. unfold clean_paragraph, Re.sub.
  rewrite sub_runs_inside by exact H. destruct p; reflexivity.
Qed.

(** X11: a document without text gives the empty string: when there
    is no paragraph, or every paragraph consists of control and
    white-space characters only, every paragraph is dropped and the
    text is empty. *)
Theorem blank_document_gives_empty_text paragraphs :
  Forall (Forall (fun c => is_blank c = true)) paragraphs ->
  cleaned_paragraphs paragraphs = [] /\ normalize_text paragraphs = [].
Proof.
  intros H.
  assert (Hc : cleaned_paragraphs paragraphs = []).
  { induction H as [|p ps Hp _ IH]; [reflexivity|].
    cbn [cleaned_paragraphs]. now rewrite (clean_paragraph_blank Hp). }
  split; [exact Hc|]. now rewrite normalize_text_lines, Hc.
Qed.

Lemma blank_document_gives_empty_text_witness :
  normalize_text [u "   "; []; [12288; 9; 10; 160]%N] = [].
Proof.
  apply (@blank_document_gives_empty_text [u "   "; []; [12288; 9; 10; 160]%N]).
  repeat constructor.
Defined.

(** ** The search for the fenced block *)

Lemma app_eq_prefix (a x b y : pystr) :
  a ++ x = b ++ y -> length a <= length b -> exists m, x = m ++ y.
Proof.
  revert b. induction a as [|c a IH]; intros b H Hlen.
  - exists b. exact H.
  - destruct b as [|d b]; [cbn in Hlen; lia|].
    cbn in H. inversion H; subst.
    apply (IH b); [assumption|cbn in Hlen; lia].
Qed.

(** The pattern has a match exactly when the answer has an opening
    fence followed, somewhere later, by a closing fence. *)
Lemma search_json_block_none s :
  Re.search_json_block s = None <->
  (forall pre g post, s <> pre ++ u "```json" ++ g ++ u "```" ++ post).
Proof.
  unfold Re.search_json_block. split.
  - intros H pre g post Hs.
    destruct (Re.find (u "```json") s) as [[a after]|] eqn:E1.
    + destruct (Re.find (u "```") after) as [[g1 post1]|] eqn:E2;
        [discriminate|].
      pose proof (find_first _ E1 pre (g ++ u "```" ++ post) Hs) as Hlen.
      apply find_some in E1.
      assert (Hm : exists m, after = m ++ u "```" ++ post).
      { apply (@app_eq_prefix (a ++ u "```json") after
                 (pre ++ u "```json" ++ g) (u "```" ++ post)).
        - rewrite <- !app_assoc. rewrite <- E1. exact Hs.
        - rewrite !length_app. lia. }
      destruct Hm as (m & Hm).
      exact (find_none_no_occurrence _ E2 m post Hm).
    + exact (find_none_no_occurrence _ E1 pre (g ++ u "```" ++ post) Hs).
  - intros H.
    destruct (Re.find (u "```json") s) as [[a after]|] eqn:E1; [|reflexivity].
    destruct (Re.find (u "```") after) as [[g post]|] eqn:E2; [|reflexivity].
    apply find_some in E1. apply find_some in E2. subst after.
    exfalso. exact (H a g post E1).
Qed.

Lemma field_text_class py decoded key e :
  field_text py decoded key = Raise e -> exn_class e = "AttributeError"%string.
Proof.
  unfold field_text, py_get.
  destruct decoded; cbn; try discriminate; intros H; inversion H; reflexivity.
Qed.

(** X12: for an answer that is a string, the extraction fails with
    [ValueError('未找到有效JSON数据')] exactly when the answer holds no
    opening fence followed later by a closing fence; no other failure
    of the extraction has this exception. *)
Theorem no_block_error py s :
  extract_answer py (PStr s)
  = Raise (mkExn "ValueError" (u "未找到有效JSON数据"))
  <-> (forall pre g post, s <> pre ++ u "```json" ++ g ++ u "```" ++ post).
Proof.
  rewrite <- search_json_block_none.
  unfold extract_answer, re_search. cbn [bind].
  destruct (Re.search_json_block s) as [group1|]; [|tauto].
  split; [|discriminate]. intros H. exfalso.
  split_bind H; [apply loads_fuel in H; discriminate|].
  split_bind H; [apply field_text_class in H; discriminate|].
  split_bind H; [apply field_text_class in H; discriminate|].
  split_bind H; [apply field_text_class in H; discriminate|].
  discriminate.
Qed.

(** ** Encoding and decoding *)

Lemma below_32 c : (c < 32)%N -> In c (map N.of_nat (seq 0 32)).
Proof.
  intros H. rewrite <- (N2Nat.id c). apply in_map. apply in_seq. lia.
Qed.

(** One character, escaped or not, is read back in one step. *)
Lemma scanstring_escape_char c f rest pos begin acc :
  Json.scanstring (S f) (Dumps.escape_char c ++ rest) pos begin acc
  = Json.scanstring f rest (pos + N.of_nat (length (Dumps.escape_char c)))%N
      begin (c :: acc).
Proof.
  destruct (N.ltb_spec c 32) as [Hlow|Hhigh].
  - apply below_32 in Hlow. revert f rest pos begin acc.
    revert c Hlow.
    apply (proj1 (Forall_forall
      (fun c => forall f rest pos begin acc,
         Json.scanstring (S f) (Dumps.escape_char c ++ rest) pos begin acc
         = Json.scanstring f rest
             (pos + N.of_nat (length (Dumps.escape_char c)))%N
             begin (c :: acc))
      (map N.of_nat (seq 0 32)))).
    repeat (constructor; [intros; reflexivity|]). constructor.
  - destruct (N.eq_dec c 92) as [->|H92]; [reflexivity|].
    destruct (N.eq_dec c DQUOTE) as [->|H34]; [reflexivity|].
    assert (Hesc : Dumps.escape_char c = [c]).
    { unfold Dumps.escape_char.
      repeat match goal with
             | |- context [(c =? ?k)%N] =>
                 destruct (N.eqb_spec c k); [subst; try congruence; lia|]
             end.
      destruct (N.ltb_spec c 32); [lia|reflexivity]. }
    rewrite Hesc. cbn [app length Json.scanstring].
    destruct (N.eqb_spec c DQUOTE); [congruence|].
    destruct (N.eqb_spec c 92); [congruence|].
    destruct (N.leb_spec c 31); [lia|].
    f_equal.
Qed.

Lemma scanstring_escaped : forall s fuel rest pos begin acc,
  length s < fuel ->
  exists pos',
    Json.scanstring fuel (flat_map Dumps.escape_char s ++ DQUOTE :: rest)
      pos begin acc
    = Json.PVal (rev acc ++ s) rest pos'.
Proof.
  induction s as [|c s IH]; intros fuel rest pos begin acc Hf;
    (destruct fuel as [|f]; [cbn in Hf; lia|]).
  - exists (pos + 1)%N. cbn. now rewrite app_nil_r.
  - cbn [flat_map]. rewrite <- app_assoc, scanstring_escape_char.
    destruct (IH f rest (pos + N.of_nat (length (Dumps.escape_char c)))%N
                begin (c :: acc)) as (pos' & H); [cbn in Hf; lia|].
    exists pos'. rewrite H. cbn [rev]. now rewrite <- app_assoc.
Qed.

Lemma escape_char_nonempty c : 1 <= length (Dumps.escape_char c).
Proof.
  unfold Dumps.escape_char.
  repeat match goal with
         | |- context [if ?b then _ else _] => destruct b; [cbn; lia|]
         end.
  cbn. lia.
Qed.

Lemma flat_map_escape_length s :
  length s <= length (flat_map Dumps.escape_char s).
Proof.
  induction s as [|c s IH]; cbn [flat_map length]; [lia|].
  rewrite length_app. pose proof (escape_char_nonempty c). lia.
Qed.

(** A string between quotes after [encode_basestring] is read back as
    the string. *)
Lemma quoted_string s rest pos begin :
  exists pos',
    Json.scanstring
      (S (length (flat_map Dumps.escape_char s ++ DQUOTE :: rest)))
      (flat_map Dumps.escape_char s ++ DQUOTE :: rest) pos begin []
    = Json.PVal s rest pos'.
Proof.
  apply (@scanstring_escaped s _ rest pos begin []).
  rewrite length_app. pose proof (flat_map_escape_length s). lia.
Qed.

Lemma encode_basestring_cons s rest :
  Dumps.encode_basestring s ++ rest
  = DQUOTE :: flat_map Dumps.escape_char s ++ DQUOTE :: rest.
Proof. unfold Dumps.encode_basestring. cbn. now rewrite <- app_assoc. Qed.

(** A string between quotes is read back as the string. *)
Lemma scans_string py s : scans py (PStr s) (Dumps.encode_basestring s).
Proof.
  split; [reflexivity|].
  intros f rest pos _. rewrite encode_basestring_cons.
  cbn [Json.scan_once]. change (DQUOTE =? DQUOTE)%N with true. cbn iota.
  destruct (quoted_string s rest (pos + 1)%N pos) as (pos' & H).
  exists pos'. now rewrite H.
Qed.

(** *** Whole numbers *)

Lemma digit_char_digit m : (m < 10)%N -> Json.is_digit (digit_char m) = true.
Proof.
  intros H. unfold Json.is_digit, digit_char.
  apply andb_true_intro. split; apply N.leb_le; lia.
Qed.

Lemma dec_digits_shape : forall f n acc,
  (n < 2 ^ N.of_nat f)%N -> f <> 0 ->
  exists d ds,
    dec_digits f n acc = d :: ds ++ acc
    /\ digits ds
    /\ (if (n =? 0)%N then d = 48%N /\ ds = [] else (49 <= d <= 57)%N).
Proof.
  induction f as [|f IH]; intros n acc Hn Hf; [contradiction|].
  cbn [dec_digits]. destruct (N.ltb_spec n 10) as [Hs|Hl].
  - exists (digit_char (n mod 10)), []. rewrite N.mod_small by exact Hs.
    split; [reflexivity|]. split; [constructor|].
    unfold digit_char. destruct (N.eqb_spec n 0); [subst; auto|lia].
  - rewrite Nat2N.inj_succ, N.pow_succ_r' in Hn.
    assert (Hq : (n / 10 < 2 ^ N.of_nat f)%N)
      by (apply N.Div0.div_lt_upper_bound; lia).
    assert (H1 : (1 <= n / 10)%N)
      by (apply N.div_le_lower_bound; lia).
    assert (Hf' : f <> 0) by (intros ->; cbn in Hq; lia).
    destruct (IH (n / 10)%N (digit_char (n mod 10) :: acc) Hq Hf')
      as (d & ds & E & Hds & Hd).
    exists d, (ds ++ [digit_char (n mod 10)]).
    rewrite E, <- app_assoc. split; [reflexivity|]. split.
    + apply Forall_app. split; [exact Hds|]. constructor; [|constructor].
      apply digit_char_digit. apply N.mod_lt. lia.
    + destruct (N.eqb_spec n 0); [lia|].
      destruct (N.eqb_spec (n / 10) 0); [lia|exact Hd].
Qed.

Lemma dec_digits_value : forall f n acc,
  (n < 2 ^ N.of_nat f)%N -> f <> 0 ->
  fold_left (fun a d => (a * 10 + Z.of_N (d - 48))%Z) (dec_digits f n acc) 0%Z
  = fold_left (fun a d => (a * 10 + Z.of_N (d - 48))%Z) acc (Z.of_N n).
Proof.
  induction f as [|f IH]; intros n acc Hn Hf; [contradiction|].
  cbn [dec_digits]. destruct (N.ltb_spec n 10) as [Hs|Hl].
  - rewrite N.mod_small by exact Hs. cbn [fold_left]. f_equal.
    unfold digit_char. lia.
  - rewrite Nat2N.inj_succ, N.pow_succ_r' in Hn.
    assert (Hq : (n / 10 < 2 ^ N.of_nat f)%N)
      by (apply N.Div0.div_lt_upper_bound; lia).
    assert (H1 : (1 <= n / 10)%N)
      by (apply N.div_le_lower_bound; lia).
    assert (Hf' : f <> 0) by (intros ->; cbn in Hq; lia).
    rewrite (IH (n / 10)%N _ Hq Hf'). cbn [fold_left]. f_equal.
    unfold digit_char.
    pose proof (N.div_mod' n 10) as Hdm.
    pose proof (N.mod_lt n 10) as Hm. clear - Hdm Hm.
    set (q := (n / 10)%N) in *. set (r := (n mod 10)%N) in *.
    clearbody q r. lia.
Qed.

Lemma str_of_N_fuel n : (n < 2 ^ N.of_nat (S (N.to_nat (N.log2 n))))%N.
Proof.
  rewrite Nat2N.inj_succ, N2Nat.id.
  destruct (N.eq_dec n 0) as [->|H]; [reflexivity|].
  apply N.log2_spec. lia.
Qed.

Lemma str_of_N_shape n :
  exists d ds,
    str_of_N n = d :: ds
    /\ digits ds
    /\ (if (n =? 0)%N then d = 48%N /\ ds = [] else (49 <= d <= 57)%N)
    /\ Json.Z_of_digits (d :: ds) = Z.of_N n.
Proof.
  destruct (@dec_digits_shape _ n [] (str_of_N_fuel n)) as (d & ds & E & H1 & H2);
    [discriminate|].
  rewrite app_nil_r in E. exists d, ds. unfold str_of_N. rewrite E.
  repeat split; try assumption.
  rewrite <- E. unfold Json.Z_of_digits.
  now rewrite dec_digits_value by (apply str_of_N_fuel || discriminate).
Qed.

Lemma span_digits_app ds rest :
  digits ds -> delimited rest = true ->
  Json.span_digits (ds ++ rest) = (ds, rest).
Proof.
  intros Hds Hrest. induction Hds as [|c ds Hc _ IH].
  - destruct rest as [|c t]; [reflexivity|]. cbn in *.
    destruct (Json.is_digit c); [discriminate|reflexivity].
  - cbn [app Json.span_digits]. now rewrite Hc, IH.
Qed.

Lemma delimited_head c t :
  delimited (c :: t) = true ->
  Json.is_digit c = false /\ (c =? ch ".")%N = false
  /\ (c =? ch "e")%N = false /\ (c =? ch "E")%N = false.
Proof.
  cbn [delimited]. rewrite negb_true_iff, !orb_false_iff. tauto.
Qed.

Lemma digit_bounds d : Json.is_digit d = true -> (48 <= d <= 57)%N.
Proof.
  unfold Json.is_digit. intros H. apply andb_prop in H. destruct H as [H1 H2].
  apply N.leb_le in H1, H2. lia.
Qed.

(** The decimal text of a whole number is read back as the number. *)
Lemma match_number_int py (neg : bool) d ds rest pos :
  Json.is_digit d = true -> digits ds ->
  ((49 <= d)%N \/ ds = []) -> delimited rest = true ->
  exists pos',
    Json.match_number py ((if neg then [45%N] else []) ++ d :: ds ++ rest) pos
    = Json.PVal (PInt (if neg then - Json.Z_of_digits (d :: ds)
                       else Json.Z_of_digits (d :: ds))) rest pos'.
Proof.
  intros Hd Hds Hlead Hrest. pose proof (@digit_bounds d Hd) as Hb.
  unfold Json.match_number.
  assert (Hsign : (d =? ch "-")%N = false)
    by (apply N.eqb_neq; change (ch "-") with 45%N; lia).
  assert (Hint :
    (if ((49 <=? d) && (d <=? 57))%N
     then let (ds0, r) := Json.span_digits (ds ++ rest) in Some (d :: ds0, r)
     else if (d =? 48)%N then Some ([d], ds ++ rest) else None)
    = Some (d :: ds, rest)).
  { destruct (N.leb_spec 49 d) as [H49|H49]; cbn [andb].
    - replace (d <=? 57)%N with true by (symmetry; apply N.leb_le; lia).
      now rewrite span_digits_app.
    - destruct Hlead as [Hlead | Hnil]; [lia|]. subst ds.
      replace (d =? 48)%N with true by (symmetry; apply N.eqb_eq; lia).
      reflexivity. }
  assert (Hfrac :
    match rest with
    | p0 :: d1 :: t2 =>
        if ((p0 =? ch ".")%N && Json.is_digit d1)%bool
        then let (ds0, r) := Json.span_digits t2 in (p0 :: d1 :: ds0, r)
        else ([], rest)
    | _ => ([], rest)
    end = (@nil N, rest)).
  { destruct rest as [|p0 [|d1 t2]]; try reflexivity.
    destruct (@delimited_head _ _ Hrest) as (_ & -> & _). reflexivity. }
  assert (Hexpo :
    match rest with
    | [] => ([], rest)
    | e :: t3 =>
        if ((e =? ch "e") || (e =? ch "E"))%N
        then
          let '(sg, t4) :=
            match t3 with
            | [] => ([], t3)
            | g :: t' =>
                if ((g =? ch "-") || (g =? ch "+"))%N
                then ([g], t') else ([], t3)
            end in
          let (ds0, r) := Json.span_digits t4 in
          match ds0 with
          | [] => ([], rest)
          | _ :: _ => (e :: sg ++ ds0, r)
          end
        else ([], rest)
    end = (@nil N, rest)).
  { destruct rest as [|e t3]; [reflexivity|].
    destruct (@delimited_head _ _ Hrest) as (_ & _ & -> & ->). reflexivity. }
  destruct neg; cbn [app].
  - replace (45 =? ch "-")%N with true by reflexivity.
    rewrite Hint, Hfrac, Hexpo. eexists. reflexivity.
  - rewrite Hsign, Hint, Hfrac, Hexpo. eexists. reflexivity.
Qed.

Lemma scan_once_digit py f d t pos :
  Json.is_digit d = true ->
  Json.scan_once py (S f) (d :: t) pos = Json.match_number py (d :: t) pos.
Proof.
  intros Hd. pose proof (@digit_bounds d Hd) as Hb. cbn [Json.scan_once].
  repeat match goal with
         | |- context [(d =? ?k)%N] =>
             replace (d =? k)%N with false
               by (symmetry; apply N.eqb_neq; intros ->; vm_compute in Hb;
                   destruct Hb; congruence)
         end.
  reflexivity.
Qed.

Lemma scan_once_minus py f d t pos :
  Json.is_digit d = true ->
  Json.scan_once py (S f) (45%N :: d :: t) pos
  = Json.match_number py (45%N :: d :: t) pos.
Proof.
  intros Hd. pose proof (@digit_bounds d Hd) as Hb. cbn [Json.scan_once].
  replace (starts_with (u "Infinity") (d :: t)) with false.
  - reflexivity.
  - symmetry. change (u "Infinity") with (73%N :: u "nfinity").
    cbn [starts_with]. apply andb_false_intro1. apply N.eqb_neq. lia.
Qed.

Lemma scans_int py z : scans py (PInt z) (str_of_Z z).
Proof.
  assert (Hshape : exists (neg : bool) d ds,
    str_of_Z z = (if neg then [45%N] else []) ++ d :: ds
    /\ Json.is_digit d = true /\ digits ds
    /\ ((49 <= d)%N \/ ds = [])
    /\ z = (if neg then - Json.Z_of_digits (d :: ds)
            else Json.Z_of_digits (d :: ds))%Z).
  { assert (Hn : forall n, exists d ds,
      str_of_N n = d :: ds /\ Json.is_digit d = true /\ digits ds
      /\ ((49 <= d)%N \/ ds = [])
      /\ Json.Z_of_digits (d :: ds) = Z.of_N n).
    { intros n. destruct (str_of_N_shape n) as (d & ds & E & Hds & Hd & Hv).
      exists d, ds. repeat split; try assumption.
      - destruct (n =? 0)%N; [destruct Hd as [-> _]; reflexivity|].
        unfold Json.is_digit. apply andb_true_intro.
        split; apply N.leb_le; lia.
      - destruct (n =? 0)%N; [right; tauto|left; lia]. }
    destruct z as [|p|p].
    - destruct (Hn 0%N) as (d & ds & E & H1 & H2 & H3 & H4).
      exists false, d, ds. cbn [str_of_Z Z.to_N app]. now rewrite H4.
    - destruct (Hn (Npos p)) as (d & ds & E & H1 & H2 & H3 & H4).
      exists false, d, ds. cbn [str_of_Z Z.to_N app]. now rewrite H4.
    - destruct (Hn (Npos p)) as (d & ds & E & H1 & H2 & H3 & H4).
      exists true, d, ds. cbn [str_of_Z app]. rewrite E, H4.
      repeat split; assumption || reflexivity. }
  destruct Hshape as (neg & d & ds & E & Hd & Hds & Hlead & Hz).
  split.
  - rewrite E. pose proof (@digit_bounds d Hd) as Hb.
    destruct neg; [reflexivity|]. cbn [app token_head].
    unfold Json.is_ws.
    repeat match goal with
           | |- context [(d =? ?k)%N] =>
               replace (d =? k)%N with false
                 by (symmetry; apply N.eqb_neq; intros ->; vm_compute in Hb;
                     destruct Hb; congruence)
           end.
    reflexivity.
  - intros f rest pos Hrest. rewrite E, <- app_assoc.
    destruct (@match_number_int py neg d ds rest pos Hd Hds Hlead Hrest)
      as (pos' & H).
    exists pos'. rewrite <- Hz in H. rewrite <- H.
    destruct neg; cbn [app].
    + now apply scan_once_minus.
    + now apply scan_once_digit.
Qed.

Lemma scans_simple_cell py level v :
  simple_cell v ->
  exists txt, Dumps.encode level v = Ok txt /\ scans py v txt.
Proof.
  destruct v as [ | [|] | z | | s | | | ]; cbn [simple_cell]; try tauto;
    intros _; eexists; (split; [reflexivity|]).
  - split; [reflexivity|]. intros f rest pos _. eexists. reflexivity.
  - split; [reflexivity|]. intros f rest pos _. eexists. reflexivity.
  - split; [reflexivity|]. intros f rest pos _. eexists. reflexivity.
  - apply scans_int.
  - apply scans_string.
Qed.

Lemma skip_ws_app ws rest pos :
  json_ws ws -> token_head rest = true ->
  exists pos', Json.skip_ws (ws ++ rest) pos = (rest, pos').
Proof.
  intros Hws Hrest. revert pos.
  induction Hws as [|c ws Hc _ IH]; intros pos.
  - exists pos. destruct rest as [|c t]; [discriminate|].
    cbn in *. now destruct (Json.is_ws c).
  - destruct (IH (pos + 1)%N) as (pos' & H). exists pos'.
    cbn [app Json.skip_ws]. now rewrite Hc.
Qed.

Lemma token_head_app txt rest :
  token_head txt = true -> token_head (txt ++ rest) = true.
Proof. destruct txt; [discriminate|exact (fun H => H)]. Qed.

Lemma delimited_app ws more :
  json_ws ws -> delimited more = true -> delimited (ws ++ more) = true.
Proof.
  intros Hws Hmore. destruct Hws as [|c ws Hc _]; [exact Hmore|].
  cbn [app delimited]. unfold Json.is_ws in Hc.
  repeat (apply orb_prop in Hc; destruct Hc as [Hc|Hc]);
    apply N.eqb_eq in Hc; subst c; reflexivity.
Qed.

(** One member of an object, up to the token that follows it. *)
Lemma parse_member py f key wa wb v txt wc more pos acc :
  json_ws wa -> json_ws wb -> json_ws wc ->
  scans py v txt -> token_head more = true -> delimited more = true ->
  exists p6,
    Json.parse_members py (S (S f))
      (member_text key wa wb txt ++ wc ++ more) pos acc
    = if Json.at_head (ch "}") more
      then Json.PVal (PDict (dict_set acc key v)) (tl more) (p6 + 1)%N
      else if Json.at_head (ch ",") more then
        let (r8, p8) := Json.skip_ws (tl more) (p6 + 1)%N in
        Json.parse_members py (S f) r8 p8 (dict_set acc key v)
      else Json.PFail (u "Expecting ',' delimiter") p6.
Proof.
  intros Ha Hb Hc [Hhead Hscan] Hmore Hdel.
  unfold member_text. rewrite <- !app_assoc, encode_basestring_cons.
  cbn [Json.parse_members]. 
  set (body := flat_map Dumps.escape_char key ++ _).
  replace (Json.at_head DQUOTE (DQUOTE :: body)) with true by reflexivity.
  cbn [tl]. subst body.
  destruct (quoted_string key (wa ++ u ":" ++ wb ++ txt ++ wc ++ more)
              (pos + 1)%N pos) as (p1 & ->).
  destruct (@skip_ws_app wa (u ":" ++ wb ++ txt ++ wc ++ more) p1 Ha eq_refl)
    as (p2 & ->).
  replace (Json.at_head (ch ":") (u ":" ++ wb ++ txt ++ wc ++ more))
    with true by reflexivity.
  change (tl (u ":" ++ wb ++ txt ++ wc ++ more)) with (wb ++ txt ++ wc ++ more).
  destruct (@skip_ws_app wb (txt ++ wc ++ more) (p2 + 1)%N Hb
              (@token_head_app txt _ Hhead)) as (p4 & ->).
  destruct (Hscan f (wc ++ more) p4 (@delimited_app wc more Hc Hdel))
    as (p5 & ->).
  destruct (@skip_ws_app wc more p5 Hc Hmore) as (p6 & ->).
  exists p6. reflexivity.
Qed.


Lemma parse_member_more py f key wa wb v txt wc wd rest pos acc :
  json_ws wa -> json_ws wb -> json_ws wc -> json_ws wd ->
  scans py v txt -> token_head rest = true ->
  exists pos',
    Json.parse_members py (S (S f))
      (member_text key wa wb txt ++ wc ++ u "," ++ wd ++ rest) pos acc
    = Json.parse_members py (S f) rest pos' (dict_set acc key v).
Proof.
  intros Ha Hb Hc Hd Hv Hrest.
  destruct (@parse_member py f key wa wb v txt wc (u "," ++ wd ++ rest)
              pos acc Ha Hb Hc Hv eq_refl eq_refl) as (p6 & ->).
  destruct (@skip_ws_app wd rest (p6 + 1)%N Hd Hrest) as (p8 & H).
  exists p8.
  replace (Json.at_head (ch "}") (u "," ++ wd ++ rest)) with false
    by reflexivity.
  replace (Json.at_head (ch ",") (u "," ++ wd ++ rest)) with true
    by reflexivity.
  change (tl (u "," ++ wd ++ rest)) with (wd ++ rest). now rewrite H.
Qed.

Lemma parse_member_last py f key wa wb v txt wc rest pos acc :
  json_ws wa -> json_ws wb -> json_ws wc -> scans py v txt ->
  exists pos',
    Json.parse_members py (S (S f))
      (member_text key wa wb txt ++ wc ++ u "}" ++ rest) pos acc
    = Json.PVal (PDict (dict_set acc key v)) rest pos'.
Proof.
  intros Ha Hb Hc Hv.
  destruct (@parse_member py f key wa wb v txt wc (u "}" ++ rest)
              pos acc Ha Hb Hc Hv eq_refl eq_refl) as (p6 & ->).
  exists (p6 + 1)%N. reflexivity.
Qed.

Lemma member_text_head key wa wb txt rest :
  token_head (member_text key wa wb txt ++ rest) = true.
Proof. reflexivity. Qed.

Lemma scan_object py f w key wa wb txt rest pos :
  json_ws w ->
  exists pos',
    Json.scan_once py (S f)
      (u "{" ++ w ++ member_text key wa wb txt ++ rest) pos
    = Json.parse_members py f (member_text key wa wb txt ++ rest) pos' [].
Proof.
  intros Hw.
  destruct (@skip_ws_app w (member_text key wa wb txt ++ rest) (pos + 1)%N
              Hw (member_text_head key wa wb txt rest)) as (p & H).
  exists p. change (u "{" ++ ?x) with (ch "{" :: x).
  cbn [Json.scan_once].
  replace (ch "{" =? DQUOTE)%N with false by reflexivity.
  replace (ch "{" =? ch "{")%N with true by reflexivity.
  cbv iota. rewrite H. reflexivity.
Qed.

Lemma loads_object py s v :
  (forall f, exists pos, Json.scan_once py (S (S (S (S (S f))))) s 0
                         = Json.PVal v [] pos) ->
  starts_with [65279%N] s = false -> token_head s = true ->
  2 <= length s ->
  Json.loads py s = Ok v.
Proof.
  intros Hscan Hbom Hhead Hlen. unfold Json.loads. rewrite Hbom.
  destruct s as [|c t]; [discriminate|].
  assert (Hws : Json.skip_ws (c :: t) 0%N = (c :: t, 0%N)).
  { cbn [Json.skip_ws]. cbn [token_head] in Hhead.
    now destruct (Json.is_ws c). }
  rewrite Hws.
  replace (2 * length (c :: t) + 2)
    with (S (S (S (S (S (2 * length (c :: t) - 3)))))) by lia.
  destruct (Hscan (2 * length (c :: t) - 3)) as (p & ->).
  reflexivity.
Qed.

Lemma json_ws_nil : json_ws [].
Proof. constructor. Qed.

Lemma indented_query_shape s0 s1 :
  indented_query s0 s1
    = u "{" ++ (LF :: u "    ")
        ++ member_text (u "条款") [] [SPACE] s0 ++ [] ++ u ","
        ++ (LF :: u "    ")
        ++ member_text (u "内容概要填写说明和提示") [] [SPACE] s1
        ++ [LF] ++ u "}" ++ [].
Proof. vm_compute. reflexivity. Qed.

Lemma two_chars (s : pystr) :
  match s with _ :: _ :: _ => true | _ => false end = true -> 2 <= length s.
Proof. destruct s as [|a [|b t]]; try discriminate. cbn. lia. Qed.

Lemma loads_indented_query py v0 v1 s0 s1 :
  scans py v0 s0 -> scans py v1 s1 ->
  Json.loads py (indented_query s0 s1)
  = Ok (PDict [(u "条款", v0); (u "内容概要填写说明和提示", v1)]).
Proof.
  intros H0 H1.
  assert (Hind : json_ws (LF :: u "    ")) by (repeat constructor).
  assert (Hsp : json_ws [SPACE]) by (repeat constructor).
  assert (Hlf : json_ws [LF]) by (repeat constructor).
  apply loads_object.
  - intros f. rewrite indented_query_shape.
    destruct (@scan_object py (S (S (S (S f)))) (LF :: u "    ") (u "条款") []
                [SPACE] s0
                ([] ++ u "," ++ (LF :: u "    ")
                   ++ member_text (u "内容概要填写说明和提示") [] [SPACE] s1
                   ++ [LF] ++ u "}" ++ []) 0%N Hind) as (p1 & ->).
    destruct (@parse_member_more py (S (S f)) (u "条款") [] [SPACE] v0 s0 []
                (LF :: u "    ")
                (member_text (u "内容概要填写说明和提示") [] [SPACE] s1
                   ++ [LF] ++ u "}" ++ []) p1 []
                json_ws_nil Hsp json_ws_nil Hind H0
                (member_text_head _ _ _ _ _)) as (p2 & ->).
    destruct (@parse_member_last py (S f) (u "内容概要填写说明和提示") []
                [SPACE] v1 s1 [LF] [] p2 (dict_set [] (u "条款") v0)
                json_ws_nil Hsp Hlf H1) as (p3 & ->).
    exists p3. vm_compute. reflexivity.
  - vm_compute. reflexivity.
  - vm_compute. reflexivity.
  - apply two_chars. vm_compute. reflexivity.
Qed.

Lemma build_payload_indented c0 c1 rest file_text s0 s1 :
  Dumps.encode 1 c0 = Ok s0 ->
  Dumps.encode 1 c1 = Ok s1 ->
  build_payload (c0 :: c1 :: rest) file_text
  = Ok (envelope (indented_query s0 s1) file_text).
Proof.
  intros H0 H1.
  unfold build_payload, Dumps.dumps. cbn [tuple_getitem nth_error bind].
  cbn [Dumps.encode Dumps.map_result fst snd]. rewrite H0, H1.
  cbn [bind]. unfold envelope, indented_query.
  do 3 f_equal. vm_compute Dumps.newline_indent.
  change (Dumps.encode_basestring (u "条款"))
    with ([DQUOTE] ++ u "条款" ++ [DQUOTE]).
  change (Dumps.encode_basestring (u "内容概要填写说明和提示"))
    with ([DQUOTE] ++ u "内容概要填写说明和提示" ++ [DQUOTE]).
  cbn [join]. repeat rewrite <- app_assoc. reflexivity.
Qed.

(** X13: the query string of a request is valid JSON that reads back
    as the object with the clause label and the clause guidance of
    the row, for a row whose first two cells are strings, empty,
    booleans or whole numbers. *)
Theorem query_decodes_to_cells py c0 c1 rest file_text :
  simple_cell c0 -> simple_cell c1 ->
  exists query,
    build_payload (c0 :: c1 :: rest) file_text
    = Ok (envelope query file_text)
    /\ Json.loads py query
       = Ok (PDict [(u "条款", c0); (u "内容概要填写说明和提示", c1)]).
Proof.
  intros H0 H1.
  destruct (@scans_simple_cell py 1 c0 H0) as (s0 & E0 & S0).
  destruct (@scans_simple_cell py 1 c1 H1) as (s1 & E1 & S1).
  exists (indented_query s0 s1). split.
  - now apply build_payload_indented.
  - now apply loads_indented_query.
Qed.

Lemma query_decodes_to_cells_witness :
  exists query,
    build_payload [PStr (u "保密"); PInt 12; PStr (u "x")] (u "text")
    = Ok (envelope query (u "text"))
    /\ Json.loads plain_builtins query
       = Ok (PDict [(u "条款", PStr (u "保密"));
                    (u "内容概要填写说明和提示", PInt 12)]).
Proof.
  apply (@query_decodes_to_cells plain_builtins (PStr (u "保密")) (PInt 12)
           [PStr (u "x")] (u "text")); exact I.
Defined.

(** *** A fenced object with string fields *)

Lemma no_backtick_check s :
  forallb (fun c => negb (c =? 96)%N) s = true -> no_backtick s.
Proof.
  intros H. apply Forall_forall. intros c Hc.
  rewrite forallb_forall in H. specialize (H c Hc).
  intros ->. discriminate H.
Qed.

Lemma escape_char_no_backtick c :
  c <> 96%N -> no_backtick (Dumps.escape_char c).
Proof.
  intros Hc. destruct (N.ltb_spec c 32) as [Hlow|Hhigh].
  - apply below_32 in Hlow. clear Hc. revert c Hlow.
    apply (proj1 (Forall_forall
      (fun c => no_backtick (Dumps.escape_char c))
      (map N.of_nat (seq 0 32)))).
    repeat (constructor; [apply no_backtick_check; vm_compute; reflexivity|]).
    constructor.
  - unfold Dumps.escape_char.
    repeat match goal with
           | |- context [if ?b then _ else _] =>
               destruct b; [apply no_backtick_check; vm_compute; reflexivity|]
           end.
    destruct (N.ltb_spec c 32); [lia|].
    constructor; [exact Hc|constructor].
Qed.

Lemma encode_basestring_no_backtick s :
  no_backtick s -> no_backtick (Dumps.encode_basestring s).
Proof.
  intros Hs. unfold Dumps.encode_basestring.
  constructor; [discriminate|]. apply Forall_app. split.
  - induction Hs as [|c s Hc _ IH]; [constructor|].
    cbn [flat_map]. apply Forall_app. split; [|exact IH].
    now apply escape_char_no_backtick.
  - constructor; [discriminate|constructor].
Qed.

Lemma json_ws_no_backtick ws : json_ws ws -> no_backtick ws.
Proof.
  apply Forall_impl. intros c Hc ->. discriminate Hc.
Qed.

Lemma member_text_no_backtick key wa wb s :
  no_backtick key -> json_ws wa -> json_ws wb -> no_backtick s ->
  no_backtick (member_text key wa wb (Dumps.encode_basestring s)).
Proof.
  intros Hk Ha Hb Hs. unfold member_text.
  apply Forall_app. split; [now apply encode_basestring_no_backtick|].
  apply Forall_app. split; [now apply json_ws_no_backtick|].
  apply Forall_app. split; [apply no_backtick_check; reflexivity|].
  apply Forall_app. split; [now apply json_ws_no_backtick|].
  now apply encode_basestring_no_backtick.
Qed.

Lemma answer_object_no_backtick w s1 s2 s3 :
  (forall i, json_ws (w i)) ->
  no_backtick s1 -> no_backtick s2 -> no_backtick s3 ->
  no_backtick (answer_object w s1 s2 s3).
Proof.
  intros Hw H1 H2 H3.
  assert (Hkey : forall key wa wb s,
            forallb (fun c => negb (c =? 96)%N) key = true ->
            json_ws wa -> json_ws wb -> no_backtick s ->
            no_backtick (member_text key wa wb (Dumps.encode_basestring s)))
    by (intros; apply member_text_no_backtick; auto using no_backtick_check).
  assert (Hws : forall i, no_backtick (w i))
    by (intros; apply json_ws_no_backtick, Hw).
  assert (Hcomma : no_backtick (u ","))
    by (apply no_backtick_check; reflexivity).
  unfold answer_object, answer_members.
  apply Forall_app. split; [apply no_backtick_check; reflexivity|].
  apply Forall_app. split; [|apply no_backtick_check; reflexivity].
  apply Forall_app. split; [apply Hws|].
  apply Forall_app. split; [apply Hkey; auto; vm_compute; reflexivity|].
  apply Forall_app. split; [apply Hws|].
  apply Forall_app. split; [exact Hcomma|].
  apply Forall_app. split; [apply Hws|].
  apply Forall_app. split; [apply Hkey; auto; vm_compute; reflexivity|].
  apply Forall_app. split; [apply Hws|].
  apply Forall_app. split; [exact Hcomma|].
  apply Forall_app. split; [apply Hws|].
  apply Forall_app. split; [apply Hkey; auto; vm_compute; reflexivity|].
  apply Hws.
Qed.

Lemma parse_member_end py f key wa wb v txt wc pos acc :
  json_ws wa -> json_ws wb -> json_ws wc -> scans py v txt ->
  exists pos',
    Json.parse_members py (S (S f))
      (member_text key wa wb txt ++ wc ++ u "}") pos acc
    = Json.PVal (PDict (dict_set acc key v)) [] pos'.
Proof.
  intros Ha Hb Hc Hv.
  destruct (@parse_member_last py f key wa wb v txt wc [] pos acc Ha Hb Hc Hv)
    as (pos' & H).
  exists pos'. now rewrite app_nil_r in H.
Qed.

Lemma loads_answer_object py w s1 s2 s3 :
  (forall i, json_ws (w i)) ->
  Json.loads py (answer_object w s1 s2 s3)
  = Ok (PDict [(u "内容概要", PStr s1); (u "条款序号", PStr s2);
               (u "条款原文", PStr s3)]).
Proof.
  intros Hw. apply loads_object.
  - intros f. unfold answer_object, answer_members.
    rewrite <- !app_assoc.
    destruct (@scan_object py (S (S (S (S f)))) (w 0) (u "内容概要") (w 1)
                (w 2) (Dumps.encode_basestring s1)
                (w 3 ++ u "," ++ w 4
                   ++ member_text (u "条款序号") (w 5) (w 6)
                        (Dumps.encode_basestring s2)
                   ++ w 7 ++ u "," ++ w 8
                   ++ member_text (u "条款原文") (w 9) (w 10)
                        (Dumps.encode_basestring s3)
                   ++ w 11 ++ u "}") 0%N (Hw 0)) as (p1 & ->).
    destruct (@parse_member_more py (S (S f)) (u "内容概要") (w 1) (w 2)
                (PStr s1) (Dumps.encode_basestring s1) (w 3) (w 4)
                (member_text (u "条款序号") (w 5) (w 6)
                   (Dumps.encode_basestring s2)
                   ++ w 7 ++ u "," ++ w 8
                   ++ member_text (u "条款原文") (w 9) (w 10)
                        (Dumps.encode_basestring s3)
                   ++ w 11 ++ u "}") p1 []
                (Hw 1) (Hw 2) (Hw 3) (Hw 4) (scans_string py s1)
                (member_text_head _ _ _ _ _)) as (p2 & ->).
    destruct (@parse_member_more py (S f) (u "条款序号") (w 5) (w 6)
                (PStr s2) (Dumps.encode_basestring s2) (w 7) (w 8)
                (member_text (u "条款原文") (w 9) (w 10)
                   (Dumps.encode_basestring s3)
                   ++ w 11 ++ u "}") p2
                (dict_set [] (u "内容概要") (PStr s1))
                (Hw 5) (Hw 6) (Hw 7) (Hw 8) (scans_string py s2)
                (member_text_head _ _ _ _ _)) as (p3 & ->).
    destruct (@parse_member_end py f (u "条款原文") (w 9) (w 10)
                (PStr s3) (Dumps.encode_basestring s3) (w 11) p3
                (dict_set (dict_set [] (u "内容概要") (PStr s1))
                   (u "条款序号") (PStr s2))
                (Hw 9) (Hw 10) (Hw 11) (scans_string py s3)) as (p4 & ->).
    exists p4. vm_compute. reflexivity.
  - reflexivity.
  - reflexivity.
  - unfold answer_object. rewrite !length_app.
    replace (length (u "{")) with 1 by (vm_compute; reflexivity).
    replace (length (u "}")) with 1 by (vm_compute; reflexivity).
    lia.
Qed.

Lemma strip_fenced_object ws1 ws2 body :
  Forall (fun c => is_space c = true) ws1 ->
  Forall (fun c => is_space c = true) ws2 ->
  strip (ws1 ++ (u "{" ++ body ++ u "}") ++ ws2) = u "{" ++ body ++ u "}".
Proof.
  intros H1 H2. apply strip_padded; try assumption.
  - discriminate.
  - reflexivity.
  - rewrite app_assoc, rev_app_distr. reflexivity.
Qed.

(** X14: an answer whose first fenced block holds, in any layout of
    JSON white space and padded or not with white space, an object
    with the summary, the clause numbers and the clause text as
    strings free of backticks, escaped as JSON asks, is extracted to
    exactly these three strings and an empty error, whatever stands
    before the block (without an opening fence of its own) and after
    it. *)
Theorem string_fields_extracted py prefix ws1 w s1 s2 s3 ws2 suffix :
  Re.find (u "```json") prefix = None ->
  Forall (fun c => is_space c = true) ws1 ->
  Forall (fun c => is_space c = true) ws2 ->
  (forall i, json_ws (w i)) ->
  no_backtick s1 -> no_backtick s2 -> no_backtick s3 ->
  extract_answer py
    (PStr (prefix ++ u "```json" ++ ws1 ++ answer_object w s1 s2 s3 ++ ws2
             ++ u "```" ++ suffix))
  = Ok (mkRowResult s1 s2 s3 []).
Proof.
  intros Hprefix Hws1 Hws2 Hw H1 H2 H3.
  unfold extract_answer, re_search, Re.search_json_block. cbn [bind].
  rewrite find_opening_fence by exact Hprefix.
  replace (ws1 ++ answer_object w s1 s2 s3 ++ ws2 ++ u "```" ++ suffix)
    with ((ws1 ++ answer_object w s1 s2 s3 ++ ws2) ++ u "```" ++ suffix)
    by (now rewrite <- !app_assoc).
  rewrite find_closing_fence.
  - change (answer_object w s1 s2 s3)
      with (u "{" ++ answer_members w s1 s2 s3 ++ u "}") at 1.
    rewrite strip_fenced_object by assumption.
    change (u "{" ++ answer_members w s1 s2 s3 ++ u "}")
      with (answer_object w s1 s2 s3).
    rewrite loads_answer_object by exact Hw.
    vm_compute. reflexivity.
  - apply Forall_app. split.
    + eapply Forall_impl; [|exact Hws1]. apply space_not_backtick.
    + apply Forall_app. split; [now apply answer_object_no_backtick|].
      eapply Forall_impl; [|exact Hws2]. apply space_not_backtick.
Qed.

Lemma string_fields_extracted_witness :
  extract_answer plain_builtins
    (PStr (u "结果如下：" ++ u "```json" ++ [LF]
             ++ answer_object (fun _ => [SPACE])
                  (u "保密" ++ [DQUOTE; LF] ++ u "义务") (u "3.1") []
             ++ [LF] ++ u "```" ++ u "。"))
  = Ok (mkRowResult (u "保密" ++ [DQUOTE; LF] ++ u "义务") (u "3.1") [] []).
Proof.
  apply (@string_fields_extracted plain_builtins (u "结果如下：") [LF]
           (fun _ => [SPACE]) (u "保密" ++ [DQUOTE; LF] ++ u "义务")
           (u "3.1") [] [LF] (u "。")).
  - vm_compute. reflexivity.
  - repeat constructor.
  - repeat constructor.
  - intros i. repeat constructor.
  - apply no_backtick_check. vm_compute. reflexivity.
  - apply no_backtick_check. vm_compute. reflexivity.
  - constructor.
Defined.

(** ** A response with an error status *)

(** X15: when the endpoint answers the request of a row with a 4xx or
    5xx status, the row fails with the status line of the response as
    its error, whatever the body of the response holds: the body is
    not read.  The request counts as sent and one ERROR record names
    the first cell and the status line. *)
Theorem error_status_fails_row py env c0 rest file_text a t st payload resp :
  build_payload (c0 :: rest) file_text = Ok payload ->
  http_post env (length (calls st)) (request_for a t payload) = Ok resp ->
  (400 <= status_code resp < 600)%Z ->
  let status_line :=
    str_of_Z (status_code resp)
      ++ (if (status_code resp <? 500)%Z
          then u " Client Error: " else u " Server Error: ")
      ++ reason resp ++ u " for url: " ++ url resp in
  process_excel_row py env (c0 :: rest) file_text a t st
  = (Ok (mkRowResult FAILED FAILED FAILED status_line),
     logged (sent st (request_for a t payload)) ERROR
       (u "处理行失败: " ++ py_str py c0 ++ u " - " ++ status_line)).
Proof.
  intros Hbuild Hpost Hstatus status_line.
  rewrite process_excel_row_steps, row_attempt_steps, Hbuild.
  cbn zeta. rewrite Hpost. unfold raise_for_status.
  destruct (Z.ltb_spec (status_code resp) 500) as [Hc|Hs].
  - replace (400 <=? status_code resp)%Z with true
      by (symmetry; apply Z.leb_le; lia).
    reflexivity.
  - replace (500 <=? status_code resp)%Z with true
      by (symmetry; apply Z.leb_le; lia).
    replace (status_code resp <? 600)%Z with true
      by (symmetry; apply Z.ltb_lt; lia).
    rewrite andb_false_r. reflexivity.
Qed.

Lemma error_status_fails_row_witness :
  fst (process_excel_row plain_builtins (answering_env 503)
         [PStr (u "1.1"); PStr (u "guidance")]
         (u "text") sample_url sample_token (mkState [] [] []))
  = Ok (mkRowResult FAILED FAILED FAILED
          (u "503 Server Error:  for url: http://dify.example/v1/workflows/run")).
Proof.
  rewrite (@error_status_fails_row plain_builtins (answering_env 503)
             (PStr (u "1.1")) [PStr (u "guidance")] (u "text")
             sample_url sample_token (mkState [] [] [])
             (envelope (indented_query (Dumps.encode_basestring (u "1.1"))
                          (Dumps.encode_basestring (u "guidance")))
                (u "text"))
             (mkResponse 503 [] (u "http://dify.example/v1/workflows/run")
                (body_with_answer sample_answer)));
    [vm_compute; reflexivity | vm_compute; reflexivity | reflexivity
    | cbn; lia].
Defined.
